(** * ceph_exporter: the MDS slow-operation collector (ceph/mds.go)

    A shallow embedding of the MDS collector of the exporter: the
    description grammar [descRegex] and [extractOpFromDescription], the
    label tuple [mdsLabels] with its gob key encoding ([Hash] / [UnHash]),
    the buffered channel of the collector with its non-blocking writes and
    the draining loop of [Collect], and the aggregation pass
    [collectMDSSlowOps].

    Go strings are byte strings: they are modelled by [string], whose
    characters are the 256 values of [ascii]. *)

From Stdlib Require Import ZArith NArith Ascii String List Lia Bool.
From stdpp Require Import base option list gmap strings fin_maps pretty.

Local Open Scope string_scope.
Local Open Scope list_scope.

(** ** Results of fallible calls *)

(** A Go [error] value.  [fmt.Errorf(format, arg)] is kept symbolic: the
    format and its argument ([Errorw] when the argument is an error,
    wrapped with the verb w). *)
Inductive error : Type :=
| Errorf (format : string) (arg : string)
| Errorw (format : string) (cause : error)
| ErrNew (msg : string).

Inductive result (A : Type) : Type :=
| Ok (a : A)
| Err (e : error).
Arguments Ok {A} a.
Arguments Err {A} e.

(** ** Regular expressions (package regexp, as far as [descRegex] needs it)

    Go's [regexp] returns the match a backtracking matcher finds first
    (leftmost, then by the priority of the alternatives and of greedy or
    lazy repetition).  The matcher below is that backtracking search,
    written with a continuation.

    [descRegex] only uses ASCII literals and classes; [.] and the negated
    class are the only items matching a byte above 127, and both are
    followed by [.*] or delimited by ASCII bytes, so matching byte by byte
    yields the submatches of the rune by rune matching of Go. *)
Module Regexp.

(** A character class: a (possibly negated) union of byte ranges, or
    [.], any character but the newline. *)
Inductive cclass : Type :=
| Ranges (negated : bool) (rs : list (ascii * ascii))
| Dot.

Definition inRange (c : ascii) (r : ascii * ascii) : bool :=
  (N_of_ascii (fst r) <=? N_of_ascii c)%N && (N_of_ascii c <=? N_of_ascii (snd r))%N.

Definition classMatch (cl : cclass) (c : ascii) : bool :=
  match cl with
  | Ranges neg rs => xorb neg (existsb (inRange c) rs)
  | Dot => negb (N_of_ascii c =? 10)%N
  end.

Inductive re : Type :=
| Lit (l : string)                      (* a literal string *)
| Cls (cl : cclass)                     (* one character of a class *)
| Star (cl : cclass) (greedy : bool)    (* cl* and cl*? *)
| Plus (cl : cclass) (greedy : bool)    (* cl+ and cl+? *)
| Alt (r1 r2 : re)                      (* r1|r2 *)
| Cat (r1 r2 : re)                      (* r1r2 *)
| Cap (i : nat) (r : re).               (* the i-th capturing group *)

(** [stripPrefix l s]: the rest of [s] after its prefix [l]. *)
Fixpoint stripPrefix (l s : string) : option string :=
  match l, s with
  | EmptyString, _ => Some s
  | String a l', String b s' => if Ascii.eqb a b then stripPrefix l' s' else None
  | String _ _, EmptyString => None
  end.

(** The text between position [s] and the later position [s'] of the
    same input. *)
Definition consumed (s s' : string) : string :=
  substring 0 (String.length s - String.length s') s.

Definition captures : Type := list (nat * string).

Section Backtrack.
Context {R : Type}.

(** [cl*]: the greedy star first tries one more character, the lazy
    one first tries to go on with the rest of the expression. *)
Fixpoint star (cl : cclass) (greedy : bool) (s : string)
         (k : string -> option R) : option R :=
  match s with
  | String a t =>
      if classMatch cl a then
        if greedy then
          match star cl greedy t k with
          | Some x => Some x
          | None => k s
          end
        else
          match k s with
          | Some x => Some x
          | None => star cl greedy t k
          end
      else k s
  | EmptyString => k s
  end.

Fixpoint bt (r : re) (s : string) (c : captures)
         (k : string -> captures -> option R) : option R :=
  match r with
  | Lit l =>
      match stripPrefix l s with
      | Some s' => k s' c
      | None => None
      end
  | Cls cl =>
      match s with
      | String a t => if classMatch cl a then k t c else None
      | EmptyString => None
      end
  | Star cl g => star cl g s (fun s' => k s' c)
  | Plus cl g =>
      match s with
      | String a t =>
          if classMatch cl a then star cl g t (fun s' => k s' c) else None
      | EmptyString => None
      end
  | Alt r1 r2 =>
      match bt r1 s c k with
      | Some x => Some x
      | None => bt r2 s c k
      end
  | Cat r1 r2 => bt r1 s c (fun s' c' => bt r2 s' c' k)
  | Cap i r1 => bt r1 s c (fun s' c' => k s' ((i, consumed s s') :: c'))
  end.
End Backtrack.

(** The submatch of group [i]; a group that did not take part is the
    empty string. *)
Fixpoint group (c : captures) (i : nat) : string :=
  match c with
  | [] => ""
  | (j, v) :: c' => if Nat.eqb i j then v else group c' i
  end.

(** A match anchored at the start of [s]: the whole match followed by
    the submatches of the groups [1..n]. *)
Definition matchHere (r : re) (n : nat) (s : string) : option (list string) :=
  bt r s [] (fun s' c => Some (consumed s s' :: map (group c) (seq 1 n))).

(** [FindStringSubmatch]: the leftmost match; [[]] (a nil slice) when
    there is none. *)
Fixpoint findFrom (r : re) (n : nat) (s : string) : option (list string) :=
  match matchHere r n s with
  | Some m => Some m
  | None =>
      match s with
      | String _ t => findFrom r n t
      | EmptyString => None
      end
  end.

Definition FindStringSubmatch (r : re) (n : nat) (s : string) : list string :=
  default [] (findFrom r n s).

End Regexp.

Import Regexp.

(** ** The description grammar *)

Record opDesc : Type := mkOpDesc {
  fsOpType : string;
  inode : string;
  clientID : string
}.

Definition digitC : cclass := Ranges false [("0", "9")]%char.
Definition hexC : cclass := Ranges false [("0", "9"); ("a", "f"); ("A", "F")]%char.
(** [\w] *)
Definition wordC : cclass :=
  Ranges false [("0", "9"); ("A", "Z"); ("_", "_"); ("a", "z")]%char.
(** [\s]: tab, newline, form feed, carriage return, space *)
Definition spaceC : cclass :=
  Ranges false [("009", "010"); ("012", "013"); (" ", " ")]%char.
(** [[^a-zA-Z\d:]] *)
Definition inodeEndC : cclass :=
  Ranges true [("a", "z"); ("A", "Z"); ("0", "9"); (":", ":")]%char.

(** [client_request\(client\.(?P<clientid>[0-9].+?):(?P<cid>[0-9].+?)\s(?P<fsoptype>\w+)\s.*#(?P<inode>0x[0-9a-fA-F]+|[0-9]+)[^a-zA-Z\d:].*] *)
Definition descRegex : re :=
  Cat (Lit "client_request(client.")
  (Cat (Cap 1 (Cat (Cls digitC) (Plus Dot false)))
  (Cat (Lit ":")
  (Cat (Cap 2 (Cat (Cls digitC) (Plus Dot false)))
  (Cat (Cls spaceC)
  (Cat (Cap 3 (Plus wordC true))
  (Cat (Cls spaceC)
  (Cat (Star Dot true)
  (Cat (Lit "#")
  (Cat (Cap 4 (Alt (Cat (Lit "0x") (Plus hexC true)) (Plus digitC true)))
  (Cat (Cls inodeEndC)
       (Star Dot true))))))))))).

(** [descRegex.SubexpNames()] *)
Definition descSubexpNames : list string :=
  [""; "clientid"; "cid"; "fsoptype"; "inode"].

Definition errInvalidDescriptionFormat : string :=
  "invalid op description, unable to parse %q".

(** [getGroups]: the named submatches of the leftmost match.  The index
    [i] ranges over the names, so [match[i]] is read inside the slice
    whenever there is a match (both have five entries). *)
Definition getGroups (regEx : re) (names : list string) (input : string)
  : gmap string string :=
  let match_ := FindStringSubmatch regEx (length names - 1) input in
  foldl (fun groupsMap '(i, name) =>
           if (0 <? i)%nat && (i <=? length match_)%nat
           then <[name := default "" (match_ !! i)]> groupsMap
           else groupsMap)
        ∅ (imap (fun i name => (i, name)) names).

Definition extractOpFromDescription (desc : string) : result opDesc :=
  let matches := FindStringSubmatch descRegex (length descSubexpNames - 1) desc in
  if (length matches =? 0)%nat then Err (Errorf errInvalidDescriptionFormat desc)
  else
    let groups := getGroups descRegex descSubexpNames desc in
    match groups !! "clientid" with
    | None => Err (Errorf errInvalidDescriptionFormat desc)
    | Some clientID =>
        match groups !! "fsoptype" with
        | None => Err (Errorf errInvalidDescriptionFormat desc)
        | Some fsoptype =>
            match groups !! "inode" with
            | None => Err (Errorf errInvalidDescriptionFormat desc)
            | Some inode =>
                Ok {| fsOpType := fsoptype; inode := inode; clientID := clientID |}
            end
        end
    end.

Definition exampleDescription : string :=
  "client_request(client.20001974182:344151 rmdir #0x10000000030/72a26231-ac24-4f69-9350-8ebc5444c9ea 2024-02-13T22:11:00.196767+0000 caller_uid=0, caller_gid=0{})".


(** ** Byte strings *)

(** [len(s)] *)
Definition slen (s : string) : N := N.of_nat (String.length s).

(** [s[:n]] and [s[n:]] *)
Fixpoint takeS (n : nat) (s : string) : string :=
  match n, s with
  | S m, String a t => String a (takeS m t)
  | _, _ => EmptyString
  end.

Fixpoint dropS (n : nat) (s : string) : string :=
  match n, s with
  | S m, String _ t => dropS m t
  | _, _ => s
  end.

Definition byte (x : N) : ascii := ascii_of_N (x mod 256).

(** ** The label tuple *)

Record mdsLabels : Type := mkLabels {
  FSName : string;
  MDSName : string;
  State : string;
  OpType : string;
  FSOpType : string;
  FlagPoint : string;
  Inode : string
}.

(** [var ml mdsLabels] *)
Definition zeroLabels : mdsLabels := mkLabels "" "" "" "" "" "" "".

(** ** encoding/gob, as far as [mdsLabels] needs it

    The wire format of package gob for a struct of string fields, sent
    through a fresh [Encoder] and read by a fresh [Decoder]:
    - an unsigned integer below 128 is one byte, a larger one is the
      negated count of its bytes followed by these, big-endian;
    - a signed integer is an unsigned one whose bit 0 says whether to
      complement the rest;
    - a string is its length followed by its bytes;
    - a struct is the sequence of its non-zero fields, each preceded by
      the distance to the previous field number (starting from -1), closed
      by a zero;
    - a message is its length followed by a type id and the data: the
      negated id and the [wireType] for a type definition, the id and the
      value for a value;
    - a message of [tooBig] bytes or more is not written, and [Encode]
      reports an error. *)
Module Gob.

(** [tooBig] on a 64-bit platform: 8 GiB. *)
Definition tooBig : N := 2 ^ 33.

(** The id of the first type a process sends through gob. *)
Definition firstUserId : Z := 64.
Definition mdsLabelsId : Z := firstUserId + 1.
(** The id of the built-in type [string]. *)
Definition tString : Z := 6.

(** The [n] low-order bytes of [x], the most significant first. *)
Fixpoint beBytes (n : nat) (x : N) : string :=
  match n with
  | O => EmptyString
  | S m => String (byte (x / 256 ^ N.of_nat m)) (beBytes m x)
  end.

(** [encoderState.encodeUint(x uint64)] *)
Definition encodeUint (x : N) : string :=
  let x := (x mod 2 ^ 64)%N in
  if (x <=? 127)%N then String (byte x) EmptyString
  else
    let bc := ((63 - N.log2 x) / 8)%N in        (* bits.LeadingZeros64(x) >> 3 *)
    String (byte (256 + bc - 8)) (beBytes (N.to_nat (8 - bc)) x).

(** [encoderState.encodeInt(i int64)] *)
Definition encodeInt (i : Z) : string :=
  if (i <? 0)%Z then encodeUint (Z.to_N (Z.lor (Z.shiftl (Z.lnot i) 1) 1))
  else encodeUint (Z.to_N (Z.shiftl i 1)).

Definition encodeString (s : string) : string :=
  encodeUint (slen s) +:+ s.

(** The value a big-endian byte sequence denotes, on top of [acc]. *)
Fixpoint beValue (acc : N) (s : string) : N :=
  match s with
  | EmptyString => acc
  | String b t => beValue (acc * 256 + N_of_ascii b) t
  end.

(** [decoderState.decodeUint()]: the value and the rest of the buffer. *)
Definition decodeUint (s : string) : option (N * string) :=
  match s with
  | EmptyString => None
  | String b t =>
      let v := N_of_ascii b in
      if (v <=? 127)%N then Some (v, t)
      else
        let n := (256 - v)%N in                  (* -int(int8(b)) *)
        if (8 <? n)%N then None
        else if (slen t <? n)%N then None
        else Some (beValue 0 (takeS (N.to_nat n) t), dropS (N.to_nat n) t)
  end.

(** [decoderState.decodeInt()] *)
Definition decodeInt (s : string) : option (Z * string) :=
  match decodeUint s with
  | None => None
  | Some (x, t) =>
      if N.testbit x 0 then Some (Z.lnot (Z.of_N (N.shiftr x 1)), t)
      else Some (Z.of_N (N.shiftr x 1), t)
  end.

(** [decoderState.getLength()] followed by the read of that many bytes
    ([decString]). *)
Definition decodeString (s : string) : option (string * string) :=
  match decodeUint s with
  | None => None
  | Some (n, t) =>
      if (2 ^ 63 <=? n)%N || (slen t <? n)%N || (tooBig <=? n)%N then None
      else Some (takeS (N.to_nat n) t, dropS (N.to_nat n) t)
  end.

(** *** Struct values, through their fields in declaration order *)

Definition fieldNames : list string :=
  ["FSName"; "MDSName"; "State"; "OpType"; "FSOpType"; "FlagPoint"; "Inode"].

Definition fieldsOf (ml : mdsLabels) : list string :=
  [FSName ml; MDSName ml; State ml; OpType ml; FSOpType ml; FlagPoint ml; Inode ml].

Definition ofFields (fs : list string) : mdsLabels :=
  let f i := default "" (fs !! i) in
  mkLabels (f 0%nat) (f 1%nat) (f 2%nat) (f 3%nat) (f 4%nat) (f 5%nat) (f 6%nat).

(** [encodeStruct]: field [i] of the struct is the head of [fs];
    [fieldnum] is the number of the last field sent. *)
Fixpoint encodeFields (fieldnum : Z) (i : Z) (fs : list string) : string :=
  match fs with
  | [] => encodeUint 0
  | f :: rest =>
      if (0 <? slen f)%N
      then encodeUint (Z.to_N (i - fieldnum)) +:+ encodeString f
             +:+ encodeFields i (i + 1) rest
      else encodeFields fieldnum (i + 1) rest
  end.

Definition encodeStruct (ml : mdsLabels) : string :=
  encodeFields (-1) 0 (fieldsOf ml).

(** [decodeStruct] into the fields [cur] of the receiver: the fields
    decoded so far stay set when an error stops the decoding. *)
Fixpoint decodeFields (fuel : nat) (fieldnum : Z) (cur : list string) (b : string)
  : list string * bool :=
  match fuel with
  | O => (cur, true)
  | S fuel' =>
      if (slen b =? 0)%N then (cur, true)
      else
        match decodeUint b with
        | None => (cur, false)
        | Some (delta, b1) =>
            if (2 ^ 63 <=? delta)%N then (cur, false)
            else if (delta =? 0)%N then (cur, true)
            else if (Z.of_nat (length cur) - Z.of_N delta <=? fieldnum)%Z
                 then (cur, false)
                 else
                   let fieldnum' := (fieldnum + Z.of_N delta)%Z in
                   match decodeString b1 with
                   | None => (cur, false)
                   | Some (s, b2) =>
                       decodeFields fuel' fieldnum'
                         (<[Z.to_nat fieldnum' := s]> cur) b2
                   end
        end
  end.

Definition decodeStruct (ml : mdsLabels) (b : string) : mdsLabels * bool :=
  let '(fs, ok) := decodeFields (S (String.length b)) (-1) (fieldsOf ml) b in
  (ofFields fs, ok).

(** *** Type definitions *)

Definition encodeCommonType (name : string) (id : Z) : string :=
  encodeUint 1 +:+ encodeString name +:+ encodeUint 1 +:+ encodeInt id +:+ encodeUint 0.

Definition encodeFieldType (name : string) : string :=
  encodeUint 1 +:+ encodeString name +:+ encodeUint 1 +:+ encodeInt tString
    +:+ encodeUint 0.

(** The [wireType] of a struct: field 2 ([StructT]) holds the
    [CommonType] and the slice of the field types. *)
Definition encodeWireType (name : string) (id : Z) (fields : list string) : string :=
  encodeUint 3
    +:+ (encodeUint 1 +:+ encodeCommonType name id
         +:+ encodeUint 1 +:+ encodeUint (N.of_nat (length fields))
         +:+ foldr (fun f acc => encodeFieldType f +:+ acc) EmptyString fields
         +:+ encodeUint 0)
    +:+ encodeUint 0.

Definition mdsLabelsWire : string :=
  Eval vm_compute in encodeWireType "mdsLabels" mdsLabelsId fieldNames.

(** *** Messages *)

(** [Encoder.writeMessage]: nothing is written for a message that is
    too big. *)
Definition writeMessage (payload : string) : string :=
  if (tooBig <=? slen payload)%N then EmptyString
  else encodeUint (slen payload) +:+ payload.

(** [Decoder.recvMessage] and [readMessage]. *)
Definition nextMessage (s : string) : option (string * string) :=
  match decodeUint s with
  | None => None
  | Some (nbytes, t) =>
      if (tooBig <=? nbytes)%N || (slen t <? nbytes)%N then None
      else Some (takeS (N.to_nat nbytes) t, dropS (N.to_nat nbytes) t)
  end.

(** [NewEncoder(&b).Encode(ml)]: the definition of the type, then the
    value. *)
Definition Encode (ml : mdsLabels) : string :=
  writeMessage (encodeInt (- mdsLabelsId) +:+ mdsLabelsWire)
    +:+ writeMessage (encodeInt mdsLabelsId +:+ encodeStruct ml).

Definition errDecode : error := ErrNew "gob: decoding failed".

(** [NewDecoder(r).Decode(ml)] for a stream that defines the type
    [mdsLabels] as [Encode] does and then holds one value of it.  A
    stream that defines another type, or no type, is an error here. *)
Definition Decode (ml : mdsLabels) (s : string) : mdsLabels * option error :=
  match nextMessage s with
  | None => (ml, Some errDecode)
  | Some (buf, rest) =>
      match decodeInt buf with
      | None => (ml, Some errDecode)
      | Some (id, wire) =>
          if (id =? - mdsLabelsId)%Z && String.eqb wire mdsLabelsWire then
            match nextMessage rest with
            | None => (ml, Some errDecode)
            | Some (buf2, _) =>
                match decodeInt buf2 with
                | None => (ml, Some errDecode)
                | Some (id2, body) =>
                    if (id2 =? mdsLabelsId)%Z then
                      let '(ml', ok) := decodeStruct ml body in
                      (ml', if ok then None else Some errDecode)
                    else (ml, Some errDecode)
                end
            end
          else (ml, Some errDecode)
      end
  end.

End Gob.

(** [mdsLabels.Hash]: the error of [Encode] is not looked at. *)
Definition Hash (ml : mdsLabels) : string := Gob.Encode ml.

(** [UnHash], a method of the pointer: decodes into the receiver [ml]. *)
Definition UnHash (ml : mdsLabels) (hash : string) : mdsLabels * option error :=
  Gob.Decode ml hash.


(** ** Metric samples *)

Inductive ValueType : Type := CounterValue | GaugeValue.

(** The two descriptors of the collector: [m.MDSState] with the labels
    fs, name, rank, state and [m.MDSBlockedOps] with the labels fs, name,
    state, optype, fs_optype, flag_point, inode. *)
Inductive Desc : Type := MDSState | MDSBlockedOps.

Record Metric : Type := mkMetric {
  metricDesc : Desc;
  valueType : ValueType;
  value : Z;
  labelValues : list string
}.

(** [prometheus.MustNewConstMetric]: every call of the collector passes as
    many label values as its descriptor has labels.  The values sent are
    integers (the constant 1 and the value of an [int32] counter), which
    [float64] holds exactly. *)
Definition MustNewConstMetric (d : Desc) (t : ValueType) (v : Z)
           (labels : list string) : Metric :=
  mkMetric d t v labels.

(** ** The buffered channel [m.ch] *)

Record Chan : Type := mkChan {
  buf : list Metric;
  capacity : nat
}.

(** [make(chan prometheus.Metric, n)] *)
Definition make (n : nat) : Chan := mkChan [] n.

(** [ch <- x] when it can proceed; [None] when the buffer is full and the
    send would block. *)
Definition send (c : Chan) (x : Metric) : option Chan :=
  if (length (buf c) <? capacity c)%nat then Some (mkChan (buf c ++ [x]) (capacity c))
  else None.

(** [select { case ch <- x: default: }]: the default branch is taken when
    the send would block. *)
Definition trySend (c : Chan) (x : Metric) : Chan :=
  match send c x with
  | Some c' => c'
  | None => c
  end.

(** The receive of [select { case cc, ok := <-ch: ... default: ... }]:
    [None] is the default branch.  The channel is never closed while the
    process runs (the deferred [close] of [backgroundCollect] sits behind a
    loop without exit), so [ok] is true for every value received. *)
Definition tryRecv (c : Chan) : option (Metric * Chan) :=
  match buf c with
  | [] => None
  | cc :: rest => Some (cc, mkChan rest (capacity c))
  end.

(** ** The log *)

Inductive Entry : Type :=
| LogDebug (msg : string) (fields : list (string * string))
| LogError (msg : string) (e : error) (fields : list (string * string)).

(** ** Payloads of the cluster commands (the fields the collector reads) *)

(** The outcome of a command followed by [json.Unmarshal] of its output. *)
Inductive reply (A : Type) : Type :=
| Failed (e : error)        (* the command returned an error *)
| Garbled (e : error)       (* its output is not the expected JSON *)
| Decoded (a : A).
Arguments Failed {A} e.
Arguments Garbled {A} e.
Arguments Decoded {A} a.

Record mdsInfo : Type := mkInfo {
  info_Name : string;
  info_Rank : Z;
  info_State : string
}.

(** One entry of [mdsStat.FSMap.Filesystems]; [fs_Info] lists the values
    of the map [Info] in the order the [range] of line 176 visits them.  Go
    does not fix this order: the next answer may list the same daemons in
    another order ([sameStat] below). *)
Record mdsFilesystem : Type := mkFilesystem {
  fs_FSName : string;
  fs_Info : list mdsInfo
}.

Record mdsStat : Type := mkStat {
  Filesystems : list mdsFilesystem
}.

(** One entry of [healthDetailCheck.Checks]: the messages of [Detail]. *)
Record healthCheck : Type := mkCheck {
  Detail : list string
}.

Record healthDetailCheck : Type := mkHealth {
  Checks : gmap string healthCheck
}.

Record mdsStatus : Type := mkStatus {
  mss_State : string;
  mss_FsName : string
}.

(** One entry of [mdsSlowOp.Ops]. *)
Record slowOp : Type := mkOp {
  op_Description : string;
  op_FlagPoint : string;          (* TypeData.FlagPoint *)
  op_OpType : string              (* TypeData.OpType *)
}.

Record mdsSlowOp : Type := mkSlowOp {
  Ops : list slowOp
}.

(** ** The collector *)

(** [pollers] is not a field of the Go struct: it counts the goroutines
    that run [backgroundCollect], one for each [go] statement executed. *)
Record MDSCollector : Type := mkCollector {
  background : bool;
  logger : list Entry;
  ch : Chan;
  runMDSStatFn : reply mdsStat;
  runCephHealthDetailFn : reply healthDetailCheck;
  runMDSStatusFn : string -> reply mdsStatus;
  runBlockedOpsCheckFn : string -> reply mdsSlowOp;
  pollers : nat
}.

Definition setCh (m : MDSCollector) (c : Chan) : MDSCollector :=
  mkCollector (background m) (logger m) c (runMDSStatFn m)
    (runCephHealthDetailFn m) (runMDSStatusFn m) (runBlockedOpsCheckFn m) (pollers m).

Definition logEntry (m : MDSCollector) (e : Entry) : MDSCollector :=
  mkCollector (background m) (logger m ++ [e]) (ch m) (runMDSStatFn m)
    (runCephHealthDetailFn m) (runMDSStatusFn m) (runBlockedOpsCheckFn m) (pollers m).

(** The [go] statement: one more goroutine.  The goroutine executes
    [backgroundCollect] from then on, next to its caller: its rounds are
    those of [backgroundCollect] and [pollRounds], and what it writes and
    logs while the call of [Collect] that started it is still in its loop
    are events of [CollectAlongside]. *)
Definition spawn (m : MDSCollector) : MDSCollector :=
  mkCollector (background m) (logger m) (ch m) (runMDSStatFn m)
    (runCephHealthDetailFn m) (runMDSStatusFn m) (runBlockedOpsCheckFn m)
    (S (pollers m)).

(** [NewMDSCollector]: the four commands stand for the cluster behind
    [/usr/bin/ceph]. *)
Definition NewMDSCollector (exporterLogger : list Entry) (background : bool)
           (stat : reply mdsStat) (health : reply healthDetailCheck)
           (status : string -> reply mdsStatus)
           (blockedOps : string -> reply mdsSlowOp) : MDSCollector :=
  mkCollector background exporterLogger (make 100) stat health status blockedOps 0.

Definition boolField (b : bool) : string := if b then "true" else "false".

(** ** The slow-operation pass *)

(** [strings.Split(s, sep)] for a separator of one byte: the pieces of [s]
    between the occurrences of [sep]. *)
Fixpoint Split (s : string) (sep : ascii) : list string :=
  match s with
  | EmptyString => [EmptyString]
  | String a t =>
      if Ascii.eqb a sep then EmptyString :: Split t sep
      else
        match Split t sep with
        | [] => [String a EmptyString]
        | p :: ps => String a p :: ps
        end
  end.

(** The daemon name of a detail message (lines 343-353): [None] for a
    message with an incorrect part count. *)
Definition mdsNameOf (message : string) : option string :=
  let mdsNameParts := Split message "("%char in
  if negb (length mdsNameParts =? 2)%nat then None
  else mdsNameParts !! 0%nat.

(** [atomic.AddInt32]: the sum wraps to the range of [int32]. *)
Definition int32 (z : Z) : Z := ((z + 2 ^ 31) mod 2 ^ 32 - 2 ^ 31)%Z.

(** [cnt, _ := metricMap.LoadOrStore(key, new(int32)); atomic.AddInt32(cnt, 1)] *)
Definition addOne (metricMap : gmap string Z) (key : string) : gmap string Z :=
  <[key := int32 (default 0%Z (metricMap !! key) + 1)]> metricMap.

(** The labels of one operation record (lines 392-409); the error is the
    parse error of the description of a client request. *)
Definition labelsOf (mss : mdsStatus) (mdsName : string) (op : slowOp)
  : result mdsLabels :=
  if String.eqb (op_OpType op) "client_request" then
    match extractOpFromDescription (op_Description op) with
    | Err e => Err e
    | Ok opd =>
        Ok (mkLabels (mss_FsName mss) mdsName (mss_State mss) (op_OpType op)
              (fsOpType opd) (op_FlagPoint op) (inode opd))
    end
  else
    Ok (mkLabels (mss_FsName mss) mdsName (mss_State mss) (op_OpType op)
          "" (op_FlagPoint op) "").

(** The loop over [mso.Ops] (lines 391-414), on the map and the log. *)
Definition countOp (mss : mdsStatus) (mdsName : string)
           (acc : gmap string Z * list Entry) (op : slowOp)
  : gmap string Z * list Entry :=
  match labelsOf mss mdsName op with
  | Err e =>
      (acc.1, acc.2 ++ [LogError "failed parsing blocked ops description" e
                          [("mds", mdsName)]])
  | Ok ml => (addOne acc.1 (Hash ml), acc.2)
  end.

Definition countOps (mss : mdsStatus) (mdsName : string) (ops : list slowOp)
           (lg : list Entry) : gmap string Z * list Entry :=
  foldl (countOp mss mdsName) (∅, lg) ops.

(** The metric the callback of [metricMap.Range] builds for one entry
    (lines 417-433). *)
Definition blockedOpsMetric (kv : string * Z) : Metric :=
  let ml := (UnHash zeroLabels kv.1).1 in
  MustNewConstMetric MDSBlockedOps CounterValue kv.2
    [FSName ml; MDSName ml; State ml; OpType ml; FSOpType ml; FlagPoint ml; Inode ml].

Section Collector.

(** The order in which [sync.Map.Range] visits the entries of a map; Go
    leaves it open, also from one call to the next.  A statement about
    several rounds or scrapes gives each of them an order of its own
    ([pollRounds], [visits] below). *)
Variable rangeOrder : gmap string Z -> list (string * Z).

(** The samples [metricMap.Range] offers to the channel, in order. *)
Definition rangeMetrics (metricMap : gmap string Z) : list Metric :=
  map blockedOpsMetric (rangeOrder metricMap).

(** [metricMap.Range] (lines 416-438): each sample is written unless the
    channel is full. *)
Definition emitCounters (metricMap : gmap string Z) (c : Chan) : Chan :=
  foldl trySend c (rangeMetrics metricMap).

(** The body of the loop over [check.Detail] for the daemon [mdsName]
    (lines 355-438): the collector afterwards, and whether the loop goes
    on.  A failing command or an undecodable answer returns from the whole
    pass. *)
Definition daemonSlowOps (mdsName : string) (m : MDSCollector) : MDSCollector * bool :=
  match runMDSStatusFn m mdsName with
  | Failed e =>
      (logEntry m (LogError "failed getting status from mds" e [("mds", mdsName)]), false)
  | Garbled e =>
      (logEntry m (LogError "failed unmarshalling mds status" e [("mds", mdsName)]), false)
  | Decoded mss =>
      match runBlockedOpsCheckFn m mdsName with
      | Failed e =>
          (logEntry m (LogError "failed getting blocked ops from mds" e
                         [("mds", mdsName)]), false)
      | Garbled e =>
          (logEntry m (LogError "failed unmarshalling mds blocked ops" e
                         [("mds", mdsName)]), false)
      | Decoded mso =>
          let '(metricMap, lg) := countOps mss mdsName (Ops mso) (logger m) in
          let c := emitCounters metricMap (ch m) in
          (mkCollector (background m) lg c (runMDSStatFn m)
             (runCephHealthDetailFn m) (runMDSStatusFn m)
             (runBlockedOpsCheckFn m) (pollers m), true)
      end
  end.

(** The loop over [check.Detail] (lines 342-439). *)
Fixpoint detailLoop (details : list string) (m : MDSCollector) : MDSCollector :=
  match details with
  | [] => m
  | message :: rest =>
      match mdsNameOf message with
      | None =>
          detailLoop rest
            (logEntry m (LogError "invalid mds slow request message found, check syntax"
                            (ErrNew "incorrect part count") [("message", message)]))
      | Some mdsName =>
          let '(m', continue) := daemonSlowOps mdsName m in
          if continue then detailLoop rest m' else m'
      end
  end.

Definition collectMDSSlowOps (m : MDSCollector) : MDSCollector :=
  match runCephHealthDetailFn m with
  | Failed e => logEntry m (LogError "failed getting health detail" e [])
  | Garbled e => logEntry m (LogError "failed unmarshalling health detail" e [])
  | Decoded hc =>
      match Checks hc !! "MDS_SLOW_REQUEST" with
      | None => m                                  (* No slow requests! Yay! *)
      | Some check => detailLoop (Detail check) m
      end
  end.

(** ** [collect], [backgroundCollect] and [Collect] *)

Definition mdsStateMetric (fs : mdsFilesystem) (info : mdsInfo) : Metric :=
  MustNewConstMetric MDSState GaugeValue 1
    [fs_FSName fs; info_Name info; pretty (info_Rank info); info_State info].

Definition collect (m : MDSCollector) : MDSCollector * option error :=
  match runMDSStatFn m with
  | Failed e => (m, Some (Errorw "failed getting mds stat: %w" e))
  | Garbled e => (m, Some (Errorw "failed unmarshalling mds stat json: %w" e))
  | Decoded ms =>
      let c :=
        foldl (fun c fs => foldl (fun c info => trySend c (mdsStateMetric fs info))
                             c (fs_Info fs))
              (ch m) (Filesystems ms) in
      (collectMDSSlowOps (setCh m c), None)
  end.

(** The logged [collect] of [Collect] and of [backgroundCollect]. *)
Definition loggedCollect (m : MDSCollector) : MDSCollector :=
  let field := [("background", boolField (background m))] in
  let '(m1, err) := collect (logEntry m (LogDebug "collecting MDS stats" field)) in
  match err with
  | Some e => logEntry m1 (LogError "error collecting MDS stats" e field)
  | None => m1
  end.

(** The state after [n] rounds of the loop of [backgroundCollect].  The
    loop has no exit. *)
Fixpoint backgroundCollect (n : nat) (m : MDSCollector) : MDSCollector :=
  match n with
  | O => m
  | S k => backgroundCollect k (loggedCollect m)
  end.

(** The draining loop of [Collect] (lines 228-237): the samples sent to
    the scrape, and what is left in the buffer. *)
Fixpoint drainLoop (b : list Metric) (sent : list Metric) : list Metric * list Metric :=
  match b with
  | [] => (sent, [])                               (* default: return *)
  | cc :: rest => drainLoop rest (sent ++ [cc])    (* ch <- cc *)
  end.

Definition drain (c : Chan) : list Metric * Chan :=
  let '(sent, rest) := drainLoop (buf c) [] in
  (sent, mkChan rest (capacity c)).

(** [Collect]: the collector afterwards and the samples sent to the
    scrape, when no polling goroutine writes to the channel or logs before
    the call returns.  [CollectAlongside] below is the call with what the
    goroutines do in the meantime. *)
Definition Collect (m : MDSCollector) : MDSCollector * list Metric :=
  let m1 := if negb (background m) then loggedCollect m else m in
  let m2 := if background m1 then spawn m1 else m1 in
  let '(sent, c) := drain (ch m2) in
  (setCh m2 c, sent).

End Collector.

(** ** Scrapes draining one buffer at the same time *)

(** One scrape inside its draining loop: what it has sent so far, and
    whether it has returned. *)
Record drainer : Type := mkDrainer {
  sent : list Metric;
  returned : bool
}.

Definition newDrainer : drainer := mkDrainer [] false.

(** One round of the loop of a scrape. *)
Definition drainStep (c : Chan) (d : drainer) : Chan * drainer :=
  if returned d then (c, d)
  else
    match tryRecv c with
    | Some (cc, c') => (c', mkDrainer (sent d ++ [cc]) false)
    | None => (c, mkDrainer (sent d) true)
    end.

(** The scrapes [ds] run their loops in the order [schedule] gives: each
    entry names the scrape that runs its next round. *)
Fixpoint runDrains (schedule : list nat) (c : Chan) (ds : list drainer)
  : Chan * list drainer :=
  match schedule with
  | [] => (c, ds)
  | i :: rest =>
      match ds !! i with
      | None => runDrains rest c ds
      | Some d =>
          let '(c', d') := drainStep c d in
          runDrains rest c' (<[i := d']> ds)
      end
  end.

(** ** A scrape next to the polling goroutines *)

(** What happens to the collector while a call of [Collect] is in its
    loop (lines 228-237): the call runs a round of the loop, or a polling
    goroutine (the one started at line 221, or an older one) executes one
    of its writes [select { case m.ch <- x: default: }] (lines 177-188 and
    421-435) or one of its calls of the logger.  The events leave open
    which samples and entries the goroutines produce. *)
Inductive event : Type :=
| Drains
| Writes (x : Metric)
| Logs (e : Entry).

Definition scrapeStep (s : MDSCollector * drainer) (ev : event)
  : MDSCollector * drainer :=
  match ev with
  | Drains => let '(c, d) := drainStep (ch s.1) s.2 in (setCh s.1 c, d)
  | Writes x => (setCh s.1 (trySend (ch s.1) x), s.2)
  | Logs e => (logEntry s.1 e, s.2)
  end.

(** [Collect] up to its loop, and then the events of [schedule] in their
    order: the collector afterwards and the scrape, with what it has sent
    and whether it has returned. *)
Definition CollectAlongside (rangeOrder : gmap string Z -> list (string * Z))
           (schedule : list event) (m : MDSCollector) : MDSCollector * drainer :=
  let m1 := if negb (background m) then loggedCollect rangeOrder m else m in
  let m2 := if background m1 then spawn m1 else m1 in
  foldl scrapeStep (m2, newDrainer) schedule.

(** ** Rounds of the polling loop with their own answers and orders *)

(** The collector when [mds stat] answers [stat]. *)
Definition withStat (m : MDSCollector) (stat : reply mdsStat) : MDSCollector :=
  mkCollector (background m) (logger m) (ch m) stat
    (runCephHealthDetailFn m) (runMDSStatusFn m) (runBlockedOpsCheckFn m) (pollers m).

(** Rounds of the loop of [backgroundCollect] (lines 149-156), one after
    the other: each round comes with the order in which its calls of
    [Range] visit their maps and with the answer [mds stat] gives it.
    [backgroundCollect] has the rounds that all get the same order and the
    same answer. *)
Definition pollRounds
           (rounds : list ((gmap string Z -> list (string * Z)) * reply mdsStat))
           (m : MDSCollector) : MDSCollector :=
  foldl (fun m r => loggedCollect r.1 (withStat m r.2)) m rounds.

(** ** Notions the statements below use *)

(** The number of occurrences of the byte [c] in [s]. *)
Fixpoint countByte (c : ascii) (s : string) : nat :=
  match s with
  | EmptyString => 0
  | String a t => if Ascii.eqb a c then S (countByte c t) else countByte c t
  end.

Definition hasByte (c : ascii) (s : string) : bool := (0 <? countByte c s)%nat.

(** The text of [s] before the first occurrence of [c]. *)
Fixpoint beforeFirst (c : ascii) (s : string) : string :=
  match s with
  | EmptyString => EmptyString
  | String a t => if Ascii.eqb a c then EmptyString else String a (beforeFirst c t)
  end.

(** The log entry of a detail message with an incorrect part count. *)
Definition partCountError (message : string) : Entry :=
  LogError "invalid mds slow request message found, check syntax"
    (ErrNew "incorrect part count") [("message", message)].

(** The value message of [ml] is one gob writes: it is shorter than
    [tooBig].  (This also makes every field a Go string, shorter than
    2^63 bytes.) *)
Definition gobSized (ml : mdsLabels) : Prop :=
  (slen (Gob.encodeInt Gob.mdsLabelsId +:+ Gob.encodeStruct ml) < Gob.tooBig)%N.

(** *** The shape of a description *)

Fixpoint allS (p : ascii -> bool) (s : string) : bool :=
  match s with
  | EmptyString => true
  | String a t => p a && allS p t
  end.












(** Once a scrape has returned, the buffer is empty. *)
Definition drainedIfReturned (c : Chan) (ds : list drainer) : Prop :=
  forall d, d ∈ ds -> returned d = true -> buf c = [].

(** *** Batches of operation records *)

#[global] Instance mdsLabels_eq_dec : EqDecision mdsLabels.
Proof. solve_decision. Defined.

(** The record [op] has the label tuple [ml]. *)
Definition hasLabels (mss : mdsStatus) (mdsName : string) (ml : mdsLabels)
           (op : slowOp) : bool :=
  match labelsOf mss mdsName op with
  | Ok ml' => bool_decide (ml' = ml)
  | Err _ => false
  end.

(** The number of records of the batch [ops] with the label tuple [ml]. *)
Definition tupleCount (mss : mdsStatus) (mdsName : string) (ops : list slowOp)
           (ml : mdsLabels) : nat :=
  length (filter (fun op => hasLabels mss mdsName ml op = true) ops).

(** The label tuples of the batch are tuples gob writes. *)
Definition batchSized (mss : mdsStatus) (mdsName : string) (ops : list slowOp) : Prop :=
  Forall (fun op => match labelsOf mss mdsName op with
                    | Ok ml => gobSized ml
                    | Err _ => True
                    end) ops.

(** A client request whose description does not match the grammar. *)
Definition parseFails (op : slowOp) : bool :=
  String.eqb (op_OpType op) "client_request"
  && match extractOpFromDescription (op_Description op) with
     | Err _ => true
     | Ok _ => false
     end.

(** The log entry of such a record. *)
Definition parseErrorEntry (mdsName : string) (op : slowOp) : Entry :=
  LogError "failed parsing blocked ops description"
    (Errorf errInvalidDescriptionFormat (op_Description op)) [("mds", mdsName)].

(** The cluster of [m] with the malformed records taken out of every
    batch of blocked operations. *)
Definition withoutMalformed (m : MDSCollector) : MDSCollector :=
  mkCollector (background m) (logger m) (ch m) (runMDSStatFn m)
    (runCephHealthDetailFn m) (runMDSStatusFn m)
    (fun mdsName =>
       match runBlockedOpsCheckFn m mdsName with
       | Decoded mso =>
           Decoded (mkSlowOp (filter (fun op => parseFails op = false) (Ops mso)))
       | other => other
       end)
    (pollers m).

(** [m'] is [m] up to the log, on a cluster without the malformed records. *)
Definition sameButMalformed (m m' : MDSCollector) : Prop :=
  ch m = ch m'
  /\ runMDSStatusFn m = runMDSStatusFn m'
  /\ runBlockedOpsCheckFn m' = runBlockedOpsCheckFn (withoutMalformed m).

(** *** Samples and writes *)

(** A sample carries as many label values as its descriptor has labels:
    four for the gauge of the daemon states, whose value is 1, seven for
    the counter of the blocked operations. *)
Definition wellFormed (s : Metric) : Prop :=
  match metricDesc s with
  | MDSState =>
      valueType s = GaugeValue /\ value s = 1%Z /\ length (labelValues s) = 4%nat
  | MDSBlockedOps =>
      valueType s = CounterValue /\ length (labelValues s) = 7%nat
  end.

(** The state samples of an answer of [mds stat], in the order [collect]
    builds them. *)
Definition mdsStateMetrics (ms : mdsStat) : list Metric :=
  flat_map (fun fs => map (mdsStateMetric fs) (fs_Info fs)) (Filesystems ms).

(** A sample of the blocked operations: a counter with seven label
    values. *)
Definition blockedOpsSample (s : Metric) : Prop :=
  metricDesc s = MDSBlockedOps /\ valueType s = CounterValue
  /\ length (labelValues s) = 7%nat.

(** [m'] is [m] after the samples [offered], which satisfy [P], went
    through the write of the collector, one after the other, and after
    some logging. *)
Definition offeredTo (P : Metric -> Prop) (m m' : MDSCollector)
           (offered : list Metric) : Prop :=
  background m' = background m
  /\ pollers m' = pollers m
  /\ runMDSStatFn m' = runMDSStatFn m
  /\ runCephHealthDetailFn m' = runCephHealthDetailFn m
  /\ runMDSStatusFn m' = runMDSStatusFn m
  /\ runBlockedOpsCheckFn m' = runBlockedOpsCheckFn m
  /\ ch m' = foldl trySend (ch m) offered
  /\ Forall P offered
  /\ logger m `prefix_of` logger m'.

(** [m'] is [m] up to the log. *)
Definition sameButLog (m m' : MDSCollector) : Prop :=
  background m' = background m
  /\ pollers m' = pollers m
  /\ runMDSStatFn m' = runMDSStatFn m
  /\ runCephHealthDetailFn m' = runCephHealthDetailFn m
  /\ runMDSStatusFn m' = runMDSStatusFn m
  /\ runBlockedOpsCheckFn m' = runBlockedOpsCheckFn m
  /\ ch m' = ch m.

(** The collector after [n] scrapes. *)
Definition scrapes (rangeOrder : gmap string Z -> list (string * Z)) (n : nat)
           (m : MDSCollector) : MDSCollector :=
  Nat.iter n (fun m => (Collect rangeOrder m).1) m.

(** The sum of the values of a list of samples. *)
Definition totalValue (ms : list Metric) : Z :=
  foldr (fun s acc => (value s + acc)%Z) 0%Z ms.

(** The sum of the counters of a map. *)
Definition totalCount (metricMap : gmap string Z) : Z :=
  foldr (fun kv acc => (kv.2 + acc)%Z) 0%Z (map_to_list metricMap).

(** The map holds at most [n] counters, all between 1 and [n], of sum [n]. *)
Definition countsTo (metricMap : gmap string Z) (n : nat) : Prop :=
  totalCount metricMap = Z.of_nat n
  /\ (size metricMap <= n)%nat
  /\ map_Forall (fun _ v => (1 <= v <= Z.of_nat n)%Z) metricMap.

(** The text of [s] after the first occurrence of [c]. *)
Fixpoint afterFirst (c : ascii) (s : string) : string :=
  match s with
  | EmptyString => EmptyString
  | String a t => if Ascii.eqb a c then t else afterFirst c t
  end.



(** [r] matches the text [w] and turns the submatches [c] into [c']. *)
Fixpoint Matches (r : re) (w : string) (c c' : captures) : Prop :=
  match r with
  | Lit l => w = l /\ c' = c
  | Cls cl => (exists a, w = String a EmptyString /\ classMatch cl a = true) /\ c' = c
  | Star cl _ => allS (classMatch cl) w = true /\ c' = c
  | Plus cl _ =>
      (exists a t, w = String a t /\ classMatch cl a = true
                   /\ allS (classMatch cl) t = true) /\ c' = c
  | Alt r1 r2 => Matches r1 w c c' \/ Matches r2 w c c'
  | Cat r1 r2 =>
      exists w1 w2 c1, w = w1 +:+ w2 /\ Matches r1 w1 c c1 /\ Matches r2 w2 c1 c'
  | Cap i r1 => exists c1, Matches r1 w c c1 /\ c' = (i, w) :: c1
  end.



(** *** The samples of a round, from the answers of the cluster *)

Section RoundSamples.
Variable rangeOrder : gmap string Z -> list (string * Z).
Variables (status : string -> reply mdsStatus) (blockedOps : string -> reply mdsSlowOp).

(** The samples the pass offers for a daemon, and whether it goes on. *)
Definition daemonSamples (mdsName : string) : list Metric * bool :=
  match status mdsName with
  | Decoded mss =>
      match blockedOps mdsName with
      | Decoded mso =>
          (rangeMetrics rangeOrder (countOps mss mdsName (Ops mso) []).1, true)
      | _ => ([], false)
      end
  | _ => ([], false)
  end.

(** The samples the pass offers for the messages of a detail. *)
Fixpoint detailSamples (details : list string) : list Metric :=
  match details with
  | [] => []
  | message :: rest =>
      match mdsNameOf message with
      | None => detailSamples rest
      | Some mdsName =>
          let '(offered, continue) := daemonSamples mdsName in
          if continue then offered ++ detailSamples rest else offered
      end
  end.

End RoundSamples.

(** The samples one round of collection offers to the channel. *)
Definition roundSamples (rangeOrder : gmap string Z -> list (string * Z))
           (m : MDSCollector) : list Metric :=
  match runMDSStatFn m with
  | Decoded ms =>
      mdsStateMetrics ms
      ++ match runCephHealthDetailFn m with
         | Decoded hc =>
             match Checks hc !! "MDS_SLOW_REQUEST" with
             | Some check =>
                 detailSamples rangeOrder (runMDSStatusFn m) (runBlockedOpsCheckFn m)
                   (Detail check)
             | None => []
             end
         | _ => []
         end
  | _ => []
  end.

(** *** Orders of iteration *)

(** [rangeOrder] is an order [Range] may visit a map in: it lists the
    entries of the map, each once. *)
Definition visits (rangeOrder : gmap string Z -> list (string * Z)) : Prop :=
  forall mm, rangeOrder mm ≡ₚ map_to_list mm.

(** Two answers of [mds stat] that are the same, but for the order in
    which the daemons of each filesystem are visited. *)
Definition sameStat (a b : reply mdsStat) : Prop :=
  match a, b with
  | Failed e, Failed e' => e = e'
  | Garbled e, Garbled e' => e = e'
  | Decoded ms, Decoded ms' =>
      Forall2 (fun fs fs' => fs_FSName fs = fs_FSName fs'
                             /\ fs_Info fs ≡ₚ fs_Info fs')
              (Filesystems ms) (Filesystems ms')
  | _, _ => False
  end.

(** [m'] is [m] up to the log, with a cluster that answers as it answers
    [m]. *)
Definition askedAgain (m m' : MDSCollector) : Prop :=
  background m' = background m
  /\ pollers m' = pollers m
  /\ ch m' = ch m
  /\ sameStat (runMDSStatFn m) (runMDSStatFn m')
  /\ runCephHealthDetailFn m' = runCephHealthDetailFn m
  /\ runMDSStatusFn m' = runMDSStatusFn m
  /\ runBlockedOpsCheckFn m' = runBlockedOpsCheckFn m.

(** *** What the goroutines do during a scrape *)

(** The samples the goroutines try to write, and the entries they log. *)
Definition writesOf (schedule : list event) : list Metric :=
  flat_map (fun ev => match ev with Writes x => [x] | _ => [] end) schedule.

Definition logsOf (schedule : list event) : list Entry :=
  flat_map (fun ev => match ev with Logs e => [e] | _ => [] end) schedule.

(** * Properties *)

(** ** The example of the documentation *)

(** C2: for the slow-op description the documentation of
    [extractOpFromDescription] gives, the extraction succeeds with the
    filesystem operation "rmdir" and the inode "0x10000000030". *)
Theorem extract_example_description :
  extractOpFromDescription exampleDescription
  = Ok {| fsOpType := "rmdir"; inode := "0x10000000030"; clientID := "20001974182" |}.
Proof. vm_compute. reflexivity. Qed.

(** ** The health check *)

(** C4: when the health detail decodes and its checks do not hold
    MDS_SLOW_REQUEST, the pass returns the collector as it was: no sample
    is written to the channel and nothing is logged. *)
Theorem no_slow_request_check_no_samples rangeOrder (m : MDSCollector)
        (hc : healthDetailCheck) :
  runCephHealthDetailFn m = Decoded hc ->
  Checks hc !! "MDS_SLOW_REQUEST" = None ->
  collectMDSSlowOps rangeOrder m = m.
Proof.
  intros Hhealth Hcheck. unfold collectMDSSlowOps.
  rewrite Hhealth, Hcheck. reflexivity.
Qed.

Lemma no_slow_request_check_no_samples_witness :
  let m := NewMDSCollector [] false (Failed (ErrNew "unused"))
             (Decoded (mkHealth {[ "MDS_INSUFFICIENT_STANDBY" := mkCheck ["x"] ]}))
             (fun _ => Failed (ErrNew "unused")) (fun _ => Failed (ErrNew "unused")) in
  collectMDSSlowOps map_to_list m = m.
Proof.
  intros m.
  apply (no_slow_request_check_no_samples map_to_list m
           (mkHealth {[ "MDS_INSUFFICIENT_STANDBY" := mkCheck ["x"] ]})).
  - reflexivity.
  - vm_compute. reflexivity.
Defined.

(** ** The daemon name of a detail message *)

Lemma Split_length (c : ascii) (s : string) :
  length (Split s c) = S (countByte c s).
Proof.
  induction s as [|a t IH]; simpl; [reflexivity|].
  destruct (Ascii.eqb a c); simpl; [by rewrite IH|].
  destruct (Split t c); simpl in *; [discriminate | done].
Qed.

Lemma Split_head (c : ascii) (s : string) :
  Split s c !! 0%nat = Some (beforeFirst c s).
Proof.
  induction s as [|a t IH]; simpl; [reflexivity|].
  destruct (Ascii.eqb a c); simpl; [reflexivity|].
  destruct (Split t c); simpl in *; [discriminate|].
  by injection IH as ->.
Qed.

Lemma mdsNameOf_count (message : string) :
  mdsNameOf message
  = if (countByte "(" message =? 1)%nat then Some (beforeFirst "(" message) else None.
Proof.
  unfold mdsNameOf. rewrite Split_length, Split_head.
  destruct (countByte "(" message) as [|[|n]]; reflexivity.
Qed.

(** C5 (as the code has it): a detail message is accepted when it holds
    exactly one '(': the daemon name is then the text before it, and the
    loop goes on with this daemon.  Every other message, without '(' or with
    two or more, is logged as malformed and skipped, and the loop goes on
    with the remaining messages. *)
Theorem detail_message_one_paren rangeOrder (message : string)
        (rest : list string) (m : MDSCollector) :
  mdsNameOf message
  = (if (countByte "(" message =? 1)%nat then Some (beforeFirst "(" message) else None)
  /\ detailLoop rangeOrder (message :: rest) m
     = if (countByte "(" message =? 1)%nat
       then (let '(m', continue) := daemonSlowOps rangeOrder (beforeFirst "(" message) m in
             if continue then detailLoop rangeOrder rest m' else m')
       else detailLoop rangeOrder rest (logEntry m (partCountError message)).
Proof.
  split; [apply mdsNameOf_count|].
  simpl. rewrite mdsNameOf_count.
  destruct (countByte "(" message =? 1)%nat; reflexivity.
Qed.

(** C5 as stated fails: this message holds a '(' (two of them) and is
    refused; the pass logs it and samples nothing for its daemon. *)
Lemma detail_message_two_parens_refused :
  let message := "mds.a(mds.0): 2 slow requests are blocked (> 30 secs)" in
  let m := NewMDSCollector [] false (Failed (ErrNew "unused"))
             (Decoded (mkHealth {[ "MDS_SLOW_REQUEST" := mkCheck [message] ]}))
             (fun _ => Decoded (mkStatus "up:active" "cephfs"))
             (fun _ => Decoded (mkSlowOp [mkOp "" "dispatched" "internal_op"])) in
  hasByte "(" message = true
  /\ beforeFirst "(" message = "mds.a"
  /\ mdsNameOf message = None
  /\ collectMDSSlowOps map_to_list m = logEntry m (partCountError message).
Proof. vm_compute. repeat split; reflexivity. Qed.

(** ** The buffered channel *)

Lemma emit_full (c : Chan) (ms : list Metric) :
  length (buf c) = capacity c -> foldl trySend c ms = c.
Proof.
  intros Hfull. induction ms as [|x ms IH]; simpl; [reflexivity|].
  unfold trySend at 2, send. rewrite Hfull, Nat.ltb_irrefl. exact IH.
Qed.

(** C6: on a channel that holds as many samples as its capacity a plain
    send would block; the write of the collector, a select with a default
    branch, returns at once with the channel as it was: the buffered
    samples stay, in their order, and the new sample is dropped.  So does
    every write of the slow-op pass. *)
Theorem full_buffer_drops_newest (c : Chan) (x : Metric) :
  length (buf c) = capacity c ->
  send c x = None
  /\ trySend c x = c
  /\ forall rangeOrder metricMap, emitCounters rangeOrder metricMap c = c.
Proof.
  intros Hfull.
  assert (send c x = None) as Hsend
      by (unfold send; by rewrite Hfull, Nat.ltb_irrefl).
  split; [exact Hsend|]. split.
  - unfold trySend. by rewrite Hsend.
  - intros rangeOrder metricMap. unfold emitCounters.
    by apply emit_full.
Qed.

Lemma full_buffer_drops_newest_witness :
  let s1 := MustNewConstMetric MDSState GaugeValue 1 ["cephfs"; "a"; "0"; "up:active"] in
  let s2 := MustNewConstMetric MDSState GaugeValue 1 ["cephfs"; "b"; "1"; "up:standby"] in
  let s3 := MustNewConstMetric MDSBlockedOps CounterValue 4
              ["cephfs"; "a"; "up:active"; "client_request"; "rmdir"; "dispatched"; "0x1"] in
  send (mkChan [s1; s2] 2) s3 = None
  /\ trySend (mkChan [s1; s2] 2) s3 = mkChan [s1; s2] 2
  /\ forall rangeOrder metricMap,
       emitCounters rangeOrder metricMap (mkChan [s1; s2] 2) = mkChan [s1; s2] 2.
Proof.
  intros s1 s2 s3. apply (full_buffer_drops_newest (mkChan [s1; s2] 2) s3). reflexivity.
Defined.

(** ** Draining the buffer *)

Lemma drainLoop_all (b acc : list Metric) : drainLoop b acc = (acc ++ b, []).
Proof.
  revert acc. induction b as [|cc b IH]; intros acc; simpl.
  - by rewrite app_nil_r.
  - rewrite IH. by rewrite <- app_assoc.
Qed.

Lemma sent_insert (ds : list drainer) (i : nat) (d d' : drainer) (extra : list Metric) :
  ds !! i = Some d ->
  sent d' = sent d ++ extra ->
  concat (map sent (<[i := d']> ds)) ≡ₚ concat (map sent ds) ++ extra.
Proof.
  intros Hi Hsent.
  rewrite <- (take_drop_middle ds i d Hi) at 2.
  rewrite insert_take_drop by (by eapply lookup_lt_Some).
  rewrite !map_app, !concat_app. simpl. rewrite Hsent.
  rewrite <- !app_assoc. apply Permutation_app_head.
  apply Permutation_app_head. apply Permutation_app_comm.
Qed.

Lemma runDrains_conserves (schedule : list nat) (c : Chan) (ds : list drainer) :
  concat (map sent (runDrains schedule c ds).2) ++ buf (runDrains schedule c ds).1
  ≡ₚ concat (map sent ds) ++ buf c.
Proof.
  revert c ds. induction schedule as [|i schedule IH]; intros c ds; simpl; [done|].
  destruct (ds !! i) as [d|] eqn:Hi; [|apply IH].
  unfold drainStep. destruct (returned d) eqn:Hret.
  - rewrite IH. rewrite (list_insert_id ds i d Hi). done.
  - unfold tryRecv. destruct (buf c) as [|cc rest] eqn:Hbuf.
    + rewrite IH. rewrite Hbuf.
      rewrite (sent_insert ds i d _ [] Hi) by (simpl; by rewrite app_nil_r).
      by rewrite !app_nil_r.
    + rewrite IH. simpl.
      rewrite (sent_insert ds i d _ [cc] Hi) by reflexivity.
      rewrite <- app_assoc. reflexivity.
Qed.

Lemma runDrains_returned (schedule : list nat) (c : Chan) (ds : list drainer) :
  drainedIfReturned c ds ->
  drainedIfReturned (runDrains schedule c ds).1 (runDrains schedule c ds).2.
Proof.
  revert c ds. induction schedule as [|i schedule IH]; intros c ds Hinv; simpl; [done|].
  destruct (ds !! i) as [d|] eqn:Hi; [|by apply IH].
  unfold drainStep. destruct (returned d) eqn:Hret.
  - apply IH. by rewrite (list_insert_id ds i d Hi).
  - unfold tryRecv. destruct (buf c) as [|cc rest] eqn:Hbuf; apply IH.
    + intros d' _ _. exact Hbuf.
    + intros d' Hin Hd'. simpl.
      apply list_elem_of_lookup in Hin as [j Hj].
      destruct (decide (i = j)) as [->|Hne].
      * rewrite list_lookup_insert_eq in Hj by (by eapply lookup_lt_Some).
        injection Hj as <-. discriminate.
      * rewrite list_lookup_insert_ne in Hj by done.
        assert (buf c = []) as Hnil; [|congruence].
        apply (Hinv d'); [|done]. apply list_elem_of_lookup. by exists j.
Qed.

(** C7: the draining loop of a scrape sends every buffered sample once, in
    the order of the buffer, and leaves the buffer empty; on an empty
    buffer it sends nothing.  When several scrapes drain the buffer at the
    same time, in whatever order their rounds run, the samples they have
    sent and the samples still buffered are together the samples that were
    buffered, each as often as it was there: no sample reaches two scrapes.
    A scrape returns in the round that finds the buffer empty, so that the
    buffer is empty once a scrape has returned. *)
Theorem drain_delivers_each_sample_once (c : Chan) :
  drain c = (buf c, mkChan [] (capacity c))
  /\ drain (make (capacity c)) = ([], make (capacity c))
  /\ (forall d, drainStep (mkChan [] (capacity c)) d
                = (mkChan [] (capacity c), mkDrainer (sent d) true))
  /\ forall (schedule : list nat) (n : nat),
       let r := runDrains schedule c (replicate n newDrainer) in
       concat (map sent r.2) ++ buf r.1 ≡ₚ buf c
       /\ drainedIfReturned r.1 r.2.
Proof.
  split; [|split; [|split]].
  - unfold drain. by rewrite drainLoop_all.
  - reflexivity.
  - intros [s [|]]; reflexivity.
  - intros schedule n r. split.
    + unfold r. rewrite runDrains_conserves.
      assert (concat (map sent (replicate n newDrainer)) = []) as ->; [|done].
      induction n as [|n IH]; simpl; done.
    + apply runDrains_returned.
      intros d Hin Hret. apply elem_of_replicate in Hin as [-> _]. discriminate.
Qed.

(** ** The polling goroutines *)

Lemma Collect_background rangeOrder (m : MDSCollector) :
  background m = true ->
  background (Collect rangeOrder m).1 = true
  /\ pollers (Collect rangeOrder m).1 = S (pollers m).
Proof.
  intros Hbg. unfold Collect. rewrite Hbg. simpl. rewrite Hbg.
  destruct (drain (ch (spawn m))) as [out c]. simpl. done.
Qed.

(** C8 fails on the code: [Collect] executes [go m.backgroundCollect()] on
    every call of a collector in background mode, and the loop of
    [backgroundCollect] has no exit, so after [n] scrapes [n] polling
    goroutines run for the same collector. *)
Theorem collect_spawns_a_poller_per_scrape rangeOrder (lg : list Entry)
        (stat : reply mdsStat) (health : reply healthDetailCheck)
        (status : string -> reply mdsStatus) (blockedOps : string -> reply mdsSlowOp)
        (n : nat) :
  pollers (Nat.iter n (fun m => (Collect rangeOrder m).1)
             (NewMDSCollector lg true stat health status blockedOps)) = n.
Proof.
  set (m0 := NewMDSCollector lg true stat health status blockedOps).
  assert (background (Nat.iter n (fun m => (Collect rangeOrder m).1) m0) = true
          /\ pollers (Nat.iter n (fun m => (Collect rangeOrder m).1) m0) = n) as [_ H];
    [|exact H].
  induction n as [|n [IHb IHp]]; simpl; [done|].
  destruct (Collect_background rangeOrder _ IHb) as [Hb Hp].
  split; [exact Hb|]. by rewrite Hp, IHp.
Qed.

(** ** The gob encoding of the labels *)

Section StringFacts.

Lemma append_cons (c : ascii) (a b : string) :
  String c a +:+ b = String c (a +:+ b).
Proof. reflexivity. Qed.

Lemma slen_String (c : ascii) (s : string) : slen (String c s) = (1 + slen s)%N.
Proof. unfold slen. cbn [String.length]. lia. Qed.

Lemma slen_app (a b : string) : slen (a +:+ b) = (slen a + slen b)%N.
Proof.
  induction a as [|c a IH]; [reflexivity|].
  rewrite append_cons, !slen_String, IH. lia.
Qed.

Lemma app_assoc_S (a b c : string) : (a +:+ b) +:+ c = a +:+ (b +:+ c).
Proof.
  induction a as [|x a IH]; [reflexivity|].
  rewrite !append_cons. f_equal. exact IH.
Qed.

Lemma app_nil_S (a : string) : a +:+ "" = a.
Proof.
  induction a as [|x a IH]; [reflexivity|].
  rewrite append_cons. f_equal. exact IH.
Qed.

Lemma takeS_app (a b : string) : takeS (String.length a) (a +:+ b) = a.
Proof.
  induction a as [|x a IH]; [by destruct b|].
  rewrite append_cons. cbn [String.length takeS]. f_equal. exact IH.
Qed.

Lemma dropS_app (a b : string) : dropS (String.length a) (a +:+ b) = b.
Proof.
  induction a as [|x a IH]; [reflexivity|].
  rewrite append_cons. cbn [String.length dropS]. exact IH.
Qed.

Lemma takeS_slen (a b : string) : takeS (N.to_nat (slen a)) (a +:+ b) = a.
Proof. unfold slen. rewrite Nat2N.id. apply takeS_app. Qed.

Lemma dropS_slen (a b : string) : dropS (N.to_nat (slen a)) (a +:+ b) = b.
Proof. unfold slen. rewrite Nat2N.id. apply dropS_app. Qed.

End StringFacts.

Section GobFacts.
Import Gob.

(** The constants of the format, for [lia]. *)
Ltac gobConstants :=
  unfold tooBig in *;
  change (2 ^ 64)%N with 18446744073709551616%N in *;
  change (2 ^ 63)%N with 9223372036854775808%N in *;
  change (2 ^ 33)%N with 8589934592%N in *.

Lemma N_of_byte (x : N) : N_of_ascii (byte x) = (x mod 256)%N.
Proof. unfold byte. apply N_ascii_embedding. by apply N.mod_lt. Qed.

Lemma beBytes_length (n : nat) (x : N) : String.length (beBytes n x) = n.
Proof. induction n as [|n IH]; simpl; [reflexivity|]. by rewrite IH. Qed.

Lemma beValue_beBytes (n : nat) (x acc : N) :
  beValue acc (beBytes n x) = (acc * 256 ^ N.of_nat n + x mod 256 ^ N.of_nat n)%N.
Proof.
  revert acc. induction n as [|n IH]; intros acc.
  - simpl. rewrite N.mod_1_r. lia.
  - cbn [beBytes beValue]. rewrite IH, N_of_byte.
    rewrite Nat2N.inj_succ, N.pow_succ_r'.
    rewrite (N.mul_comm 256 (256 ^ N.of_nat n)).
    rewrite (N.Div0.mod_mul_r x (256 ^ N.of_nat n) 256). lia.
Qed.

(** The number of bytes [encodeUint] writes after the count. *)
Lemma byteCount_bounds (x : N) :
  (127 < x < 2 ^ 64)%N ->
  let bc := ((63 - N.log2 x) / 8)%N in
  (bc <= 7 /\ x < 256 ^ (8 - bc))%N.
Proof.
  intros [Hlo Hhi] bc.
  assert (N.log2 x < 64)%N as Hlog by (apply N.log2_lt_pow2; [lia | exact Hhi]).
  assert (bc <= 7)%N as Hbc.
  { assert (bc < 8)%N; [|lia]. unfold bc. apply N.Div0.div_lt_upper_bound. lia. }
  split; [exact Hbc|].
  assert (8 * bc <= 63 - N.log2 x)%N as Hmul.
  { unfold bc. apply N.Div0.mul_div_le. }
  replace 256%N with (2 ^ 8)%N by reflexivity.
  rewrite <- N.pow_mul_r. apply N.log2_lt_pow2; lia.
Qed.

Lemma decodeUint_encodeUint (x : N) (r : string) :
  (x < 2 ^ 64)%N -> decodeUint (encodeUint x +:+ r) = Some (x, r).
Proof.
  intros Hx. unfold encodeUint. rewrite (N.mod_small x) by exact Hx.
  destruct (x <=? 127)%N eqn:Hsmall.
  - apply N.leb_le in Hsmall. rewrite append_cons. cbn [decodeUint].
    rewrite N_of_byte, (N.mod_small x) by lia.
    apply N.leb_le in Hsmall. by rewrite Hsmall.
  - apply N.leb_gt in Hsmall.
    destruct (byteCount_bounds x (conj Hsmall Hx)) as [Hbc Hlt].
    set (bc := ((63 - N.log2 x) / 8)%N) in *.
    rewrite append_cons. cbn [decodeUint]. rewrite N_of_byte.
    replace ((256 + bc - 8) mod 256)%N with (248 + bc)%N
      by (rewrite N.mod_small; lia).
    replace (248 + bc <=? 127)%N with false by (symmetry; apply N.leb_gt; lia).
    replace (256 - (248 + bc))%N with (8 - bc)%N by lia.
    replace (8 <? 8 - bc)%N with false by (symmetry; apply N.ltb_ge; lia).
    rewrite slen_app. unfold slen at 1. rewrite beBytes_length, N2Nat.id.
    replace (8 - bc + slen r <? 8 - bc)%N with false
      by (symmetry; apply N.ltb_ge; lia).
    rewrite <- (beBytes_length (N.to_nat (8 - bc)) x) at 1 3.
    rewrite takeS_app, dropS_app, beValue_beBytes, N2Nat.id.
    rewrite N.mod_small by exact Hlt. reflexivity.
Qed.

Lemma encodeUint_length (x : N) : (1 <= slen (encodeUint x))%N.
Proof.
  unfold encodeUint. destruct (_ <=? 127)%N; rewrite slen_String; lia.
Qed.

Lemma decodeString_encodeString (s r : string) :
  (slen s < tooBig)%N ->
  decodeString (encodeString s +:+ r) = Some (s, r).
Proof.
  intros Hs. unfold decodeString, encodeString.
  rewrite app_assoc_S, decodeUint_encodeUint by (gobConstants; lia).
  replace (2 ^ 63 <=? slen s)%N with false
    by (symmetry; apply N.leb_gt; gobConstants; lia).
  rewrite slen_app.
  replace (slen s + slen r <? slen s)%N with false by (symmetry; apply N.ltb_ge; lia).
  replace (tooBig <=? slen s)%N with false by (symmetry; by apply N.leb_gt).
  cbn [orb]. by rewrite takeS_slen, dropS_slen.
Qed.

Lemma nextMessage_writeMessage (payload r : string) :
  (slen payload < tooBig)%N ->
  nextMessage (writeMessage payload +:+ r) = Some (payload, r).
Proof.
  intros Hp. unfold nextMessage, writeMessage.
  replace (tooBig <=? slen payload)%N with false by (symmetry; by apply N.leb_gt).
  rewrite app_assoc_S, decodeUint_encodeUint by (gobConstants; lia).
  replace (tooBig <=? slen payload)%N with false by (symmetry; by apply N.leb_gt).
  rewrite slen_app.
  replace (slen payload + slen r <? slen payload)%N with false
    by (symmetry; apply N.ltb_ge; lia).
  cbn [orb]. by rewrite takeS_slen, dropS_slen.
Qed.

Lemma field_le_encodeFields (fs : list string) (fieldnum i : Z) :
  Forall (fun f => (slen f <= slen (encodeFields fieldnum i fs))%N) fs.
Proof.
  revert fieldnum i. induction fs as [|f rest IH]; intros fieldnum i; [constructor|].
  cbn [encodeFields]. destruct (0 <? slen f)%N eqn:Hf.
  - unfold encodeString. rewrite !slen_app. constructor; [lia|].
    eapply Forall_impl; [apply (IH i (i + 1)%Z)|]. cbn beta. intros; lia.
  - apply N.ltb_ge in Hf. constructor; [lia|]. apply IH.
Qed.

Lemma decodeFields_encodeFields (fs pre : list string) (fuel : nat) (fieldnum : Z) :
  (-1 <= fieldnum < Z.of_nat (length pre))%Z ->
  (Z.of_nat (length pre + length fs) < 2 ^ 31)%Z ->
  Forall (fun f => (slen f < tooBig)%N) fs ->
  (slen (encodeFields fieldnum (Z.of_nat (length pre)) fs) <= N.of_nat fuel)%N ->
  decodeFields fuel fieldnum (pre ++ replicate (length fs) "")
    (encodeFields fieldnum (Z.of_nat (length pre)) fs)
  = (pre ++ fs, true).
Proof.
  revert pre fuel fieldnum.
  induction fs as [|f rest IH]; intros pre fuel fieldnum Hnum Hlen Hsmall Hfuel.
  - cbn [encodeFields] in *.
    destruct fuel as [|fuel]; [vm_compute in Hfuel; by destruct Hfuel|].
    reflexivity.
  - cbn [encodeFields] in *. apply Forall_cons in Hsmall as [Hf Hrest].
    cbn [length] in Hlen.
    destruct (0 <? slen f)%N eqn:Hpos.
    + apply N.ltb_lt in Hpos.
      set (delta := Z.to_N (Z.of_nat (length pre) - fieldnum)) in *.
      assert (0 < delta < 2 ^ 32)%N as Hdelta.
      { unfold delta. change (2 ^ 32)%N with 4294967296%N.
        change (2 ^ 31)%Z with 2147483648%Z in Hlen. lia. }
      rewrite !slen_app in Hfuel.
      pose proof (encodeUint_length delta) as Hd1.
      destruct fuel as [|fuel]; [lia|].
      cbn [decodeFields].
      replace (slen _ =? 0)%N with false
        by (symmetry; apply N.eqb_neq; rewrite !slen_app; lia).
      rewrite decodeUint_encodeUint
        by (change (2 ^ 64)%N with (2 ^ 32 * 2 ^ 32)%N; nia).
      replace (2 ^ 63 <=? delta)%N with false
        by (symmetry; apply N.leb_gt; change (2 ^ 63)%N with (2 ^ 32 * 2 ^ 31)%N; nia).
      replace (delta =? 0)%N with false by (symmetry; apply N.eqb_neq; lia).
      assert (Z.of_N delta = Z.of_nat (length pre) - fieldnum)%Z as HdZ
          by (unfold delta; lia).
      rewrite HdZ, length_app, length_replicate. cbn [length].
      replace (_ <=? fieldnum)%Z with false by (symmetry; apply Z.leb_gt; lia).
      rewrite decodeString_encodeString by exact Hf.
      replace (fieldnum + (Z.of_nat (length pre) - fieldnum))%Z
        with (Z.of_nat (length pre)) by lia.
      rewrite Nat2Z.id.
      cbn [replicate]. rewrite insert_app_r_alt by lia.
      rewrite Nat.sub_diag.
      change (<[0%nat:=f]> ("" :: replicate (length rest) ""))
        with (f :: replicate (length rest) "").
      rewrite (cons_middle f pre (replicate _ _)), (cons_middle f pre rest), !app_assoc.
      replace (Z.of_nat (length pre) + 1)%Z with (Z.of_nat (length (pre ++ [f])))
        by (rewrite length_app; cbn [length]; lia).
      apply IH.
      * rewrite length_app. cbn [length]. lia.
      * rewrite length_app. cbn [length]. lia.
      * exact Hrest.
      * rewrite length_app. cbn [length].
        replace (Z.of_nat (length pre + 1)) with (Z.of_nat (length pre) + 1)%Z by lia.
        pose proof (encodeUint_length (slen f)) as Hd2.
        unfold encodeString in Hfuel. rewrite slen_app in Hfuel. lia.
    + apply N.ltb_ge in Hpos.
      assert (f = "") as ->.
      { destruct f; [reflexivity|]. rewrite slen_String in Hpos. lia. }
      cbn [length replicate].
      rewrite (cons_middle "" pre (replicate _ _)), (cons_middle "" pre rest), !app_assoc.
      replace (Z.of_nat (length pre) + 1)%Z with (Z.of_nat (length (pre ++ [""])))
        by (rewrite length_app; cbn [length]; lia).
      apply IH.
      * rewrite length_app. cbn [length]. lia.
      * rewrite length_app. cbn [length]. lia.
      * exact Hrest.
      * rewrite length_app. cbn [length].
        replace (Z.of_nat (length pre + 1)) with (Z.of_nat (length pre) + 1)%Z by lia.
        exact Hfuel.
Qed.

Lemma ofFields_fieldsOf (ml : mdsLabels) : ofFields (fieldsOf ml) = ml.
Proof. by destruct ml. Qed.

Lemma gobSized_fields (ml : mdsLabels) :
  gobSized ml -> Forall (fun f => (slen f < tooBig)%N) (fieldsOf ml).
Proof.
  unfold gobSized, encodeStruct. rewrite slen_app. intros Hsized.
  eapply Forall_impl; [apply (field_le_encodeFields (fieldsOf ml) (-1) 0)|].
  cbn beta. intros f Hf. lia.
Qed.

Lemma decodeStruct_encodeStruct (ml : mdsLabels) :
  gobSized ml -> decodeStruct zeroLabels (encodeStruct ml) = (ml, true).
Proof.
  intros Hsized. unfold decodeStruct, encodeStruct.
  change (fieldsOf zeroLabels) with ([] ++ replicate (length (fieldsOf ml)) "").
  change 0%Z with (Z.of_nat (length (@nil string))).
  rewrite decodeFields_encodeFields.
  - cbn [app]. by rewrite ofFields_fieldsOf.
  - cbn [length]. lia.
  - vm_compute. reflexivity.
  - by apply gobSized_fields.
  - unfold slen. lia.
Qed.

Lemma Decode_Encode (ml : mdsLabels) :
  gobSized ml -> Decode zeroLabels (Encode ml) = (ml, None).
Proof.
  intros Hsized. unfold Decode, Encode.
  rewrite nextMessage_writeMessage by (vm_compute; reflexivity).
  assert (decodeInt (encodeInt (- mdsLabelsId) +:+ mdsLabelsWire)
          = Some (- mdsLabelsId, mdsLabelsWire)%Z) as -> by (vm_compute; reflexivity).
  rewrite Z.eqb_refl, String.eqb_refl. cbn [andb].
  rewrite <- (app_nil_S (writeMessage _)).
  rewrite nextMessage_writeMessage by exact Hsized.
  assert (decodeInt (encodeInt mdsLabelsId +:+ encodeStruct ml)
          = Some (mdsLabelsId, encodeStruct ml)) as ->.
  { change (encodeInt mdsLabelsId) with (encodeUint 130).
    unfold decodeInt. rewrite decodeUint_encodeUint by (vm_compute; reflexivity).
    reflexivity. }
  rewrite Z.eqb_refl. by rewrite decodeStruct_encodeStruct.
Qed.

End GobFacts.

Lemma UnHash_Hash (ml : mdsLabels) :
  gobSized ml -> UnHash zeroLabels (Hash ml) = (ml, None).
Proof. apply Decode_Encode. Qed.

Lemma Hash_inj (a b : mdsLabels) :
  gobSized a -> gobSized b -> Hash a = Hash b -> a = b.
Proof.
  intros Ha Hb Heq.
  pose proof (UnHash_Hash a Ha) as Hda. pose proof (UnHash_Hash b Hb) as Hdb.
  rewrite Heq in Hda. congruence.
Qed.

(** C9: the key of a label tuple determines the tuple.  For tuples whose
    value message gob writes (it is shorter than [tooBig], 8 GiB), two
    tuples have the same [Hash] exactly when they are equal, and [UnHash]
    of the [Hash] of a tuple, into a fresh receiver as in the callback of
    [Range], reports no error and yields the tuple. *)
Theorem hash_identifies_labels (a b : mdsLabels) :
  gobSized a -> gobSized b ->
  (Hash a = Hash b <-> a = b)
  /\ UnHash zeroLabels (Hash a) = (a, None).
Proof.
  intros Ha Hb. split; [split|].
  - by apply Hash_inj.
  - by intros ->.
  - by apply UnHash_Hash.
Qed.

Lemma hash_identifies_labels_witness :
  let a := mkLabels "cephfs" "mds.a" "up:active" "client_request" "rmdir"
             "failed to xlock, waiting" "0x10000000030" in
  let b := mkLabels "cephfs" "mds.a" "up:active" "internal_op" ""
             "dispatched" "" in
  (Hash a = Hash b <-> a = b) /\ UnHash zeroLabels (Hash a) = (a, None).
Proof.
  intros a b. apply (hash_identifies_labels a b); vm_compute; reflexivity.
Defined.

(** ** The description grammar *)

Section RegexpFacts.

Lemma stripPrefix_app (l s s' : string) : stripPrefix l s = Some s' -> s = l +:+ s'.
Proof.
  revert s. induction l as [|a l IH]; intros s Hs.
  - simpl in Hs. by injection Hs as ->.
  - destruct s as [|b s]; simpl in Hs; [discriminate|].
    destruct (Ascii.eqb a b) eqn:Hab; [|discriminate].
    apply Ascii.eqb_eq in Hab as ->. rewrite append_cons. f_equal. by apply IH.
Qed.

Lemma star_sound {R : Type} (cl : cclass) (g : bool) (s : string)
      (k : string -> option R) (x : R) :
  star cl g s k = Some x ->
  exists w s', s = w +:+ s' /\ allS (classMatch cl) w = true /\ k s' = Some x.
Proof.
  induction s as [|a t IH]; intros Hs.
  - exists "", "". done.
  - assert (k (String a t) = Some x ->
            exists w s', String a t = w +:+ s' /\ allS (classMatch cl) w = true
                         /\ k s' = Some x) as Hstop.
    { intros Hk. exists "", (String a t). done. }
    assert (classMatch cl a = true -> star cl g t k = Some x ->
            exists w s', String a t = w +:+ s' /\ allS (classMatch cl) w = true
                         /\ k s' = Some x) as Hmore.
    { intros Ha Ht. destruct (IH Ht) as (w & s' & -> & Hw & Hk).
      exists (String a w), s'. simpl. rewrite Ha, Hw. done. }
    simpl in Hs. destruct (classMatch cl a) eqn:Ha; [|by apply Hstop].
    destruct g.
    + destruct (star cl true t k) eqn:Ht; [|by apply Hstop].
      injection Hs as ->. by apply Hmore.
    + destruct (k (String a t)) eqn:Hk; [by apply Hstop|by apply Hmore].
Qed.












End RegexpFacts.



(** ** Aggregation of a batch *)

Section BatchFacts.
Variables (mss : mdsStatus) (mdsName : string).

Lemma extract_error (desc : string) (e : error) :
  extractOpFromDescription desc = Err e ->
  e = Errorf errInvalidDescriptionFormat desc.
Proof.
  unfold extractOpFromDescription. intros H.
  repeat match type of H with
         | (if ?b then _ else _) = _ => destruct b
         | match ?o with Some _ => _ | None => _ end = _ => destruct o
         end; congruence.
Qed.

Lemma labelsOf_parseFails (op : slowOp) :
  labelsOf mss mdsName op
  = if parseFails op
    then Err (Errorf errInvalidDescriptionFormat (op_Description op))
    else labelsOf mss mdsName op.
Proof.
  unfold parseFails, labelsOf.
  destruct (String.eqb (op_OpType op) "client_request"); [|reflexivity].
  destruct (extractOpFromDescription (op_Description op)) as [opd|e] eqn:He;
    [reflexivity|].
  cbn [andb]. by rewrite (extract_error _ _ He).
Qed.

Lemma labelsOf_valid (op : slowOp) :
  parseFails op = false -> exists ml, labelsOf mss mdsName op = Ok ml.
Proof.
  unfold parseFails, labelsOf.
  destruct (String.eqb (op_OpType op) "client_request"); [|by eexists].
  destruct (extractOpFromDescription (op_Description op)); [by eexists|discriminate].
Qed.

Lemma countOps_snoc (ops : list slowOp) (op : slowOp) (lg : list Entry) :
  countOps mss mdsName (ops ++ [op]) lg
  = countOp mss mdsName (countOps mss mdsName ops lg) op.
Proof. unfold countOps. by rewrite foldl_app. Qed.

(** The map only counts the well-formed records; each malformed one adds
    its entry to the log. *)
Lemma countOps_filter (ops : list slowOp) (lg : list Entry) :
  countOps mss mdsName ops lg
  = ((countOps mss mdsName (filter (fun op => parseFails op = false) ops) lg).1,
     lg ++ map (parseErrorEntry mdsName) (filter (fun op => parseFails op = true) ops)).
Proof.
  induction ops as [|op ops IH] using rev_ind.
  - cbn. by rewrite app_nil_r.
  - rewrite countOps_snoc, IH, !filter_app, !filter_cons, !filter_nil.
    unfold countOp at 1. rewrite labelsOf_parseFails.
    destruct (parseFails op) eqn:Hop.
    + rewrite decide_False, decide_True by done.
      rewrite app_nil_r, map_app. cbn. by rewrite app_assoc.
    + rewrite decide_True, decide_False by done.
      rewrite countOps_snoc, app_nil_r.
      destruct (labelsOf_valid op Hop) as [ml Hml]. unfold countOp.
      rewrite Hml. cbn.
      assert ((countOps mss mdsName (filter (fun op => parseFails op = false) ops) lg).2
              = lg) as Hlg; [|done].
      clear. induction ops as [|op ops IH] using rev_ind; [done|].
      rewrite filter_app, filter_cons, filter_nil.
      destruct (decide (parseFails op = false)) as [Hop|]; [|by rewrite app_nil_r].
      rewrite countOps_snoc. unfold countOp.
      destruct (labelsOf_valid op Hop) as [ml Hml]. by rewrite Hml.
Qed.

Lemma int32_succ (z : Z) : int32 (int32 z + 1) = int32 (z + 1).
Proof.
  unfold int32. f_equal.
  replace ((z + 2 ^ 31) mod 2 ^ 32 - 2 ^ 31 + 1 + 2 ^ 31)%Z
    with ((z + 2 ^ 31) mod 2 ^ 32 + 1)%Z by lia.
  rewrite Z.add_mod_idemp_l by done. f_equal. lia.
Qed.

Lemma int32_small (z : Z) : (- 2 ^ 31 <= z < 2 ^ 31)%Z -> int32 z = z.
Proof.
  intros Hz. unfold int32.
  change (2 ^ 31)%Z with 2147483648%Z in *. change (2 ^ 32)%Z with 4294967296%Z.
  rewrite Z.mod_small; lia.
Qed.

Lemma tupleCount_snoc (ops : list slowOp) (op : slowOp) (ml : mdsLabels) :
  tupleCount mss mdsName (ops ++ [op]) ml
  = (tupleCount mss mdsName ops ml
     + if hasLabels mss mdsName ml op then 1 else 0)%nat.
Proof.
  unfold tupleCount. rewrite filter_app, length_app, filter_cons, filter_nil.
  destruct (hasLabels mss mdsName ml op); [by rewrite decide_True|].
  by rewrite decide_False.
Qed.

Lemma batchSized_snoc (ops : list slowOp) (op : slowOp) :
  batchSized mss mdsName (ops ++ [op]) ->
  batchSized mss mdsName ops
  /\ match labelsOf mss mdsName op with Ok ml => gobSized ml | Err _ => True end.
Proof.
  unfold batchSized. rewrite Forall_app, Forall_singleton. done.
Qed.

(** The counter of a tuple is the number of its records, as an [int32]. *)
Lemma countOps_lookup (ops : list slowOp) (lg : list Entry) (ml : mdsLabels) :
  batchSized mss mdsName ops -> gobSized ml ->
  (countOps mss mdsName ops lg).1 !! Hash ml
  = match tupleCount mss mdsName ops ml with
    | O => None
    | S n => Some (int32 (Z.of_nat (S n)))
    end.
Proof.
  intros Hsized Hml. induction ops as [|op ops IH] using rev_ind; [done|].
  apply batchSized_snoc in Hsized as [Hops Hop]. specialize (IH Hops).
  rewrite countOps_snoc, tupleCount_snoc. unfold countOp, hasLabels.
  destruct (labelsOf mss mdsName op) as [ml0|e].
  - cbn [fst]. unfold addOne. destruct (decide (ml0 = ml)) as [->|Hne].
    + rewrite bool_decide_eq_true_2 by done. rewrite lookup_insert_eq, IH.
      destruct (tupleCount mss mdsName ops ml) as [|n]; [done|].
      cbn [default from_option id]. rewrite int32_succ.
      replace (S n + 1)%nat with (S (S n)) by lia. do 2 f_equal. lia.
    + rewrite bool_decide_eq_false_2 by done. rewrite Nat.add_0_r.
      rewrite lookup_insert_ne; [exact IH|].
      intros Heq. apply Hne. by apply Hash_inj.
  - cbn [fst]. by rewrite Nat.add_0_r.
Qed.

(** Every key of the map is the [Hash] of a tuple of the batch. *)
Lemma countOps_keys (ops : list slowOp) (lg : list Entry) (k : string) (v : Z) :
  batchSized mss mdsName ops ->
  (countOps mss mdsName ops lg).1 !! k = Some v ->
  exists ml, k = Hash ml /\ gobSized ml.
Proof.
  intros Hsized. induction ops as [|op ops IH] using rev_ind; [done|].
  apply batchSized_snoc in Hsized as [Hops Hop]. specialize (IH Hops).
  rewrite countOps_snoc. unfold countOp.
  destruct (labelsOf mss mdsName op) as [ml0|e]; [|exact IH].
  cbn [fst]. unfold addOne. destruct (decide (Hash ml0 = k)) as [<-|Hne].
  - intros _. by exists ml0.
  - by rewrite lookup_insert_ne.
Qed.

(** The counters do not depend on the log. *)
Lemma countOps_log (ops : list slowOp) (mm : gmap string Z) (lg lg' : list Entry) :
  (foldl (countOp mss mdsName) (mm, lg) ops).1
  = (foldl (countOp mss mdsName) (mm, lg') ops).1.
Proof.
  revert mm lg lg'. induction ops as [|op ops IH]; intros mm lg lg'; [done|].
  cbn [foldl]. unfold countOp at 2 4. cbn [fst snd].
  destruct (labelsOf mss mdsName op); apply IH.
Qed.

End BatchFacts.

Section PassFacts.
Variable rangeOrder : gmap string Z -> list (string * Z).

Lemma daemonSlowOps_malformed (mdsName : string) (m m' : MDSCollector) :
  sameButMalformed m m' ->
  sameButMalformed (daemonSlowOps rangeOrder mdsName m).1
                   (daemonSlowOps rangeOrder mdsName m').1
  /\ (daemonSlowOps rangeOrder mdsName m).2 = (daemonSlowOps rangeOrder mdsName m').2.
Proof.
  intros (Hch & Hstatus & Hops). unfold daemonSlowOps.
  rewrite <- Hstatus, Hops. cbn [withoutMalformed runBlockedOpsCheckFn].
  destruct (runMDSStatusFn m mdsName) as [e|e|mss]; [done|done|].
  destruct (runBlockedOpsCheckFn m mdsName) as [e|e|mso]; [done|done|].
  cbn [Ops]. rewrite (countOps_filter mss mdsName (Ops mso) (logger m)).
  destruct (countOps mss mdsName (filter _ (Ops mso)) (logger m')) as [mm' lg'] eqn:Hc'.
  assert ((countOps mss mdsName (filter (fun op => parseFails op = false) (Ops mso))
             (logger m)).1 = mm') as ->.
  { replace mm' with (mm', lg').1 by done. rewrite <- Hc'. apply countOps_log. }
  cbn. rewrite Hch. done.
Qed.

Lemma detailLoop_malformed (details : list string) (m m' : MDSCollector) :
  sameButMalformed m m' ->
  sameButMalformed (detailLoop rangeOrder details m) (detailLoop rangeOrder details m').
Proof.
  revert m m'. induction details as [|message rest IH]; intros m m' Hsame; [done|].
  cbn [detailLoop]. destruct (mdsNameOf message) as [mdsName|].
  - destruct (daemonSlowOps_malformed mdsName m m' Hsame) as [Hsame1 Hcont].
    destruct (daemonSlowOps rangeOrder mdsName m) as [m1 c1].
    destruct (daemonSlowOps rangeOrder mdsName m') as [m1' c1'].
    cbn in Hsame1, Hcont. subst c1'. destruct c1; [by apply IH|done].
  - apply IH. destruct Hsame as (Hch & Hstatus & Hops). done.
Qed.

Lemma collectMDSSlowOps_malformed (m : MDSCollector) :
  ch (collectMDSSlowOps rangeOrder m)
  = ch (collectMDSSlowOps rangeOrder (withoutMalformed m)).
Proof.
  unfold collectMDSSlowOps. cbn [withoutMalformed runCephHealthDetailFn].
  destruct (runCephHealthDetailFn m) as [e|e|hc]; [done|done|].
  destruct (Checks hc !! "MDS_SLOW_REQUEST") as [check|]; [|done].
  apply detailLoop_malformed. done.
Qed.

End PassFacts.

Section RangeFacts.
Variable rangeOrder : gmap string Z -> list (string * Z).
Hypothesis rangeOrder_perm : forall mm, rangeOrder mm ≡ₚ map_to_list mm.

Lemma blockedOpsMetric_Hash (ml : mdsLabels) (v : Z) :
  gobSized ml ->
  blockedOpsMetric (Hash ml, v)
  = MustNewConstMetric MDSBlockedOps CounterValue v (Gob.fieldsOf ml).
Proof. intros Hml. unfold blockedOpsMetric. cbn [fst snd]. by rewrite UnHash_Hash. Qed.

Lemma fieldsOf_inj (a b : mdsLabels) : Gob.fieldsOf a = Gob.fieldsOf b -> a = b.
Proof. destruct a, b. unfold Gob.fieldsOf. cbn. intros [= -> -> -> -> -> -> ->]. done. Qed.

Lemma filter_map_nil {A B : Type} (f : A -> B) (P : B -> Prop)
      `{forall y, Decision (P y)} (l : list A) :
  (forall x, x ∈ l -> ~ P (f x)) -> filter P (map f l) = [].
Proof.
  induction l as [|x l IH]; intros Hl; [done|]. cbn [map].
  rewrite filter_cons, decide_False by (apply Hl; left).
  apply IH. intros y Hy. apply Hl. by right.
Qed.

(** Among the samples of a map whose keys are hashes, exactly one carries
    the labels of a tuple that has a counter: the one with this counter. *)
Lemma rangeMetrics_one (mm : gmap string Z) (ml : mdsLabels) (v : Z) :
  (forall k w, mm !! k = Some w -> exists ml', k = Hash ml' /\ gobSized ml') ->
  gobSized ml ->
  mm !! Hash ml = Some v ->
  filter (fun s => labelValues s = Gob.fieldsOf ml) (rangeMetrics rangeOrder mm)
  = [MustNewConstMetric MDSBlockedOps CounterValue v (Gob.fieldsOf ml)].
Proof.
  intros Hkeys Hml Hv. unfold rangeMetrics.
  pose proof (NoDup_fst_map_to_list mm) as Hnodup.
  apply elem_of_map_to_list, elem_of_Permutation in Hv as [rest Hrest].
  rewrite Hrest in Hnodup. cbn in Hnodup. apply NoDup_cons in Hnodup as [Hfresh _].
  apply Permutation_singleton_r.
  transitivity (filter (fun s => labelValues s = Gob.fieldsOf ml)
                  (map blockedOpsMetric ((Hash ml, v) :: rest))).
  { apply filter_Permutation, Permutation_map.
    by rewrite rangeOrder_perm. }
  cbn [map]. rewrite filter_cons, blockedOpsMetric_Hash by done.
  rewrite decide_True by done.
  rewrite filter_map_nil; [done|].
  intros [k w] Hin Hlabels.
  assert (mm !! k = Some w) as Hkw.
  { apply elem_of_map_to_list. rewrite Hrest. by right. }
  destruct (Hkeys k w Hkw) as (ml' & -> & Hml').
  rewrite blockedOpsMetric_Hash in Hlabels by done. cbn in Hlabels.
  apply fieldsOf_inj in Hlabels as ->.
  apply Hfresh. apply list_elem_of_fmap. by exists (Hash ml, w).
Qed.

(** The writes of a pass fill the free slots of the channel, in order. *)
Lemma emit_take (ms : list Metric) (c : Chan) :
  foldl trySend c ms
  = mkChan (buf c ++ take (capacity c - length (buf c)) ms) (capacity c).
Proof.
  revert c. induction ms as [|x ms IH]; intros c.
  - cbn. rewrite take_nil, app_nil_r. by destruct c.
  - cbn [foldl]. rewrite IH. unfold trySend, send.
    destruct (length (buf c) <? capacity c)%nat eqn:Hroom.
    + apply Nat.ltb_lt in Hroom. cbn [buf capacity]. rewrite length_app. cbn [length].
      replace (capacity c - length (buf c))%nat
        with (S (capacity c - (length (buf c) + 1))) by lia.
      cbn [take]. by rewrite <- app_assoc.
    + apply Nat.ltb_ge in Hroom.
      replace (capacity c - length (buf c))%nat with 0%nat by lia. done.
Qed.

Lemma tupleCount_pos (mss : mdsStatus) (mdsName : string) (ops : list slowOp)
      (ml : mdsLabels) :
  batchSized mss mdsName ops ->
  (0 < tupleCount mss mdsName ops ml)%nat ->
  gobSized ml.
Proof.
  unfold batchSized, tupleCount. intros Hsized Hpos.
  destruct (filter _ ops) as [|op l] eqn:Hf; [cbn in Hpos; lia|].
  assert (op ∈ filter (fun op => hasLabels mss mdsName ml op = true) ops) as Hin
      by (rewrite Hf; left).
  apply list_elem_of_filter in Hin as [Hop Hin].
  rewrite Forall_forall in Hsized. specialize (Hsized op Hin).
  unfold hasLabels in Hop. destruct (labelsOf mss mdsName op) as [ml'|]; [|done].
  apply bool_decide_eq_true in Hop as <-. exact Hsized.
Qed.

End RangeFacts.

Lemma daemonSlowOps_decoded rangeOrder (mdsName : string) (m : MDSCollector)
      (mss : mdsStatus) (mso : mdsSlowOp) :
  runMDSStatusFn m mdsName = Decoded mss ->
  runBlockedOpsCheckFn m mdsName = Decoded mso ->
  ch (daemonSlowOps rangeOrder mdsName m).1
  = foldl trySend (ch m)
      (rangeMetrics rangeOrder (countOps mss mdsName (Ops mso) (logger m)).1).
Proof.
  intros Hstatus Hops. unfold daemonSlowOps. rewrite Hstatus, Hops.
  by destruct (countOps mss mdsName (Ops mso) (logger m)).
Qed.

Lemma daemonSlowOps_decoded_state rangeOrder (mdsName : string) (m : MDSCollector)
      (mss : mdsStatus) (mso : mdsSlowOp) :
  runMDSStatusFn m mdsName = Decoded mss ->
  runBlockedOpsCheckFn m mdsName = Decoded mso ->
  daemonSlowOps rangeOrder mdsName m
  = (mkCollector (background m) (countOps mss mdsName (Ops mso) (logger m)).2
       (emitCounters rangeOrder (countOps mss mdsName (Ops mso) (logger m)).1 (ch m))
       (runMDSStatFn m) (runCephHealthDetailFn m) (runMDSStatusFn m)
       (runBlockedOpsCheckFn m) (pollers m), true).
Proof.
  intros Hstatus Hops. unfold daemonSlowOps. rewrite Hstatus, Hops.
  by destruct (countOps mss mdsName (Ops mso) (logger m)).
Qed.

(** C1 (as the code has it): when the pass handles the batch of operation
    records of a daemon, the samples it offers to the channel, one for each
    entry of the map of counters, hold exactly one sample with the labels of
    a tuple that [N] records of the batch have, and the value of this sample
    is [N].  The channel takes the offered samples in order as long as it
    has a free slot and drops the others: the sample of a tuple is written
    at most once, and it is written when the channel has room for the
    samples of the batch.  (The tuples are tuples gob writes, and [N] is in
    the range of the [int32] counter.) *)
Theorem one_sample_per_tuple rangeOrder (mdsName : string) (m : MDSCollector)
        (mss : mdsStatus) (mso : mdsSlowOp) (ml : mdsLabels) :
  (forall mm, rangeOrder mm ≡ₚ map_to_list mm) ->
  runMDSStatusFn m mdsName = Decoded mss ->
  runBlockedOpsCheckFn m mdsName = Decoded mso ->
  batchSized mss mdsName (Ops mso) ->
  (0 < tupleCount mss mdsName (Ops mso) ml)%nat ->
  (Z.of_nat (tupleCount mss mdsName (Ops mso) ml) < 2 ^ 31)%Z ->
  let offered :=
    rangeMetrics rangeOrder (countOps mss mdsName (Ops mso) (logger m)).1 in
  let after := ch (daemonSlowOps rangeOrder mdsName m).1 in
  filter (fun s => labelValues s = Gob.fieldsOf ml) offered
  = [MustNewConstMetric MDSBlockedOps CounterValue
       (Z.of_nat (tupleCount mss mdsName (Ops mso) ml)) (Gob.fieldsOf ml)]
  /\ buf after
     = buf (ch m) ++ take (capacity (ch m) - length (buf (ch m))) offered
  /\ ((length (buf (ch m)) + length offered <= capacity (ch m))%nat ->
      buf after = buf (ch m) ++ offered).
Proof.
  intros Hperm Hstatus Hops Hsized Hpos Hrange offered after.
  pose proof (tupleCount_pos mss mdsName (Ops mso) ml Hsized Hpos) as Hml.
  assert (buf after
          = buf (ch m) ++ take (capacity (ch m) - length (buf (ch m))) offered)
    as Hafter.
  { unfold after. rewrite (daemonSlowOps_decoded _ _ _ mss mso) by done.
    by rewrite emit_take. }
  split; [|split; [exact Hafter|]].
  - apply (rangeMetrics_one rangeOrder Hperm); [|exact Hml|].
    + intros k w. by apply countOps_keys.
    + rewrite countOps_lookup by done.
      destruct (tupleCount mss mdsName (Ops mso) ml) as [|n]; [lia|].
      rewrite int32_small; [done|].
      change (2 ^ 31)%Z with 2147483648%Z in *. lia.
  - intros Hroom. rewrite Hafter. by rewrite take_ge by lia.
Qed.

Lemma one_sample_per_tuple_witness :
  let mss := mkStatus "up:active" "cephfs" in
  let request := mkOp exampleDescription "failed to xlock, waiting" "client_request" in
  let garbled := mkOp "client_request(garbage)" "dispatched" "client_request" in
  let internal := mkOp "internal op exportdir:mds.0:1" "dispatched" "internal_op" in
  let mso := mkSlowOp [request; garbled; internal; request] in
  let m := NewMDSCollector [] false (Failed (ErrNew "unused")) (Failed (ErrNew "unused"))
             (fun _ => Decoded mss) (fun _ => Decoded mso) in
  let ml := mkLabels "cephfs" "mds.a" "up:active" "client_request" "rmdir"
              "failed to xlock, waiting" "0x10000000030" in
  let offered := rangeMetrics map_to_list (countOps mss "mds.a" (Ops mso) (logger m)).1 in
  let after := ch (daemonSlowOps map_to_list "mds.a" m).1 in
  filter (fun s => labelValues s = Gob.fieldsOf ml) offered
  = [MustNewConstMetric MDSBlockedOps CounterValue 2 (Gob.fieldsOf ml)]
  /\ buf after
     = buf (ch m) ++ take (capacity (ch m) - length (buf (ch m))) offered
  /\ ((length (buf (ch m)) + length offered <= capacity (ch m))%nat ->
      buf after = buf (ch m) ++ offered).
Proof.
  intros mss request garbled internal mso m ml.
  apply (one_sample_per_tuple map_to_list "mds.a" m mss mso ml).
  - intros mm. reflexivity.
  - reflexivity.
  - reflexivity.
  - repeat constructor; vm_compute; reflexivity.
  - vm_compute. lia.
  - vm_compute. reflexivity.
Defined.

(** C1 as stated fails when the channel is full: here it holds its 100
    samples of the daemon states when the pass reaches a batch of two
    records with the same tuple.  The pass counts them (the sample offered
    has the value 2) and its write takes the default branch: the channel is
    as before and holds no sample for the tuple. *)
Lemma full_channel_no_sample_for_tuple :
  let mss := mkStatus "up:active" "cephfs" in
  let request := mkOp exampleDescription "failed to xlock, waiting" "client_request" in
  let mso := mkSlowOp [request; request] in
  let state := MustNewConstMetric MDSState GaugeValue 1 ["cephfs"; "a"; "0"; "up:active"] in
  let m := setCh (NewMDSCollector [] true (Failed (ErrNew "unused"))
                    (Failed (ErrNew "unused"))
                    (fun _ => Decoded mss) (fun _ => Decoded mso))
                 (mkChan (replicate 100 state) 100) in
  let ml := mkLabels "cephfs" "mds.a" "up:active" "client_request" "rmdir"
              "failed to xlock, waiting" "0x10000000030" in
  let after := ch (daemonSlowOps map_to_list "mds.a" m).1 in
  tupleCount mss "mds.a" (Ops mso) ml = 2%nat
  /\ rangeMetrics map_to_list (countOps mss "mds.a" (Ops mso) (logger m)).1
     = [MustNewConstMetric MDSBlockedOps CounterValue 2 (Gob.fieldsOf ml)]
  /\ after = ch m
  /\ filter (fun s => labelValues s = Gob.fieldsOf ml) (buf after) = [].
Proof. vm_compute. repeat split; reflexivity. Qed.

(** ** Malformed records *)

Section ValidFacts.
Variables (mss : mdsStatus) (mdsName : string).

Lemma hasLabels_valid (ml : mdsLabels) (op : slowOp) :
  hasLabels mss mdsName ml op = true -> parseFails op = false.
Proof.
  unfold hasLabels. rewrite labelsOf_parseFails.
  by destruct (parseFails op).
Qed.

(** The malformed records have no tuple: they do not count. *)
Lemma tupleCount_valid (ops : list slowOp) (ml : mdsLabels) :
  tupleCount mss mdsName (filter (fun op => parseFails op = false) ops) ml
  = tupleCount mss mdsName ops ml.
Proof.
  unfold tupleCount. f_equal. apply list_filter_filter_l.
  intros op. apply hasLabels_valid.
Qed.

Lemma tupleCount_le (ops : list slowOp) (ml : mdsLabels) :
  (tupleCount mss mdsName ops ml <= length ops)%nat.
Proof. apply length_filter. Qed.

Lemma tupleCount_elem (ops : list slowOp) (ml : mdsLabels) (op : slowOp) :
  op ∈ ops -> labelsOf mss mdsName op = Ok ml ->
  (1 <= tupleCount mss mdsName ops ml)%nat.
Proof.
  intros Hin Hml. unfold tupleCount.
  assert (op ∈ filter (fun op => hasLabels mss mdsName ml op = true) ops) as Hf.
  { apply list_elem_of_filter. split; [|done].
    unfold hasLabels. rewrite Hml. by apply bool_decide_eq_true. }
  destruct (filter _ ops); [by apply elem_of_nil in Hf|cbn; lia].
Qed.

Lemma tupleCount_record (ops : list slowOp) (ml : mdsLabels) :
  (0 < tupleCount mss mdsName ops ml)%nat ->
  exists op, op ∈ ops /\ labelsOf mss mdsName op = Ok ml.
Proof.
  unfold tupleCount. intros Hpos.
  destruct (filter _ ops) as [|op l] eqn:Hf; [cbn in Hpos; lia|].
  assert (op ∈ filter (fun op => hasLabels mss mdsName ml op = true) ops) as Hin
      by (rewrite Hf; left).
  apply list_elem_of_filter in Hin as [Hop Hin]. exists op. split; [done|].
  unfold hasLabels in Hop. destruct (labelsOf mss mdsName op) as [ml'|]; [|done].
  by apply bool_decide_eq_true in Hop as <-.
Qed.

Lemma batchSized_valid (ops : list slowOp) :
  batchSized mss mdsName ops ->
  batchSized mss mdsName (filter (fun op => parseFails op = false) ops).
Proof.
  unfold batchSized. rewrite !Forall_forall. intros H op Hin.
  apply list_elem_of_filter in Hin as [_ Hin]. by apply H.
Qed.

(** Every counter of the map belongs to the tuple of a record. *)
Lemma countOps_tuples (ops : list slowOp) (lg : list Entry) (k : string) (v : Z) :
  batchSized mss mdsName ops ->
  (countOps mss mdsName ops lg).1 !! k = Some v ->
  exists ml op, k = Hash ml /\ gobSized ml
                /\ op ∈ ops /\ labelsOf mss mdsName op = Ok ml.
Proof.
  intros Hsized Hk.
  destruct (countOps_keys mss mdsName ops lg k v Hsized Hk) as (ml & -> & Hml).
  rewrite (countOps_lookup mss mdsName ops lg ml Hsized Hml) in Hk.
  destruct (tupleCount_record ops ml) as (op & Hin & Hop).
  { destruct (tupleCount mss mdsName ops ml); [done|lia]. }
  by exists ml, op.
Qed.

End ValidFacts.

(** C3 (as the code has it): in the batch of operation records of a
    daemon, a client request whose description does not match the grammar
    is skipped: it adds a parse error of its own to the log and nothing
    else, and the pass goes on.  Every other record is counted: the samples
    the pass offers to the channel hold, for the label tuple of each valid
    record, exactly one sample, whose value is the number of valid records
    with this tuple; every offered sample is the sample of a valid record.
    The channel takes the offered samples in order as long as it has a free
    slot and drops the others, so that all of them are written when the
    channel has room for them.  The malformed records change none of this:
    the offered samples are those of the batch without them, and the
    channel after the whole pass is the channel after the pass on the
    cluster without the malformed records.  (The tuples are tuples gob
    writes, and the batch has fewer than 2^31 records.) *)
Theorem malformed_records_are_skipped rangeOrder (mdsName : string)
        (m : MDSCollector) (mss : mdsStatus) (mso : mdsSlowOp) :
  (forall mm, rangeOrder mm ≡ₚ map_to_list mm) ->
  runMDSStatusFn m mdsName = Decoded mss ->
  runBlockedOpsCheckFn m mdsName = Decoded mso ->
  batchSized mss mdsName (Ops mso) ->
  (Z.of_nat (length (Ops mso)) < 2 ^ 31)%Z ->
  let valid := filter (fun op => parseFails op = false) (Ops mso) in
  let malformed := filter (fun op => parseFails op = true) (Ops mso) in
  let offered :=
    rangeMetrics rangeOrder (countOps mss mdsName (Ops mso) (logger m)).1 in
  let after := (daemonSlowOps rangeOrder mdsName m).1 in
  logger after = logger m ++ map (parseErrorEntry mdsName) malformed
  /\ (daemonSlowOps rangeOrder mdsName m).2 = true
  /\ (forall op, op ∈ valid ->
        exists ml,
          labelsOf mss mdsName op = Ok ml
          /\ (1 <= tupleCount mss mdsName valid ml)%nat
          /\ filter (fun s => labelValues s = Gob.fieldsOf ml) offered
             = [MustNewConstMetric MDSBlockedOps CounterValue
                  (Z.of_nat (tupleCount mss mdsName valid ml)) (Gob.fieldsOf ml)])
  /\ (forall s, s ∈ offered ->
        exists op ml,
          op ∈ valid /\ labelsOf mss mdsName op = Ok ml
          /\ labelValues s = Gob.fieldsOf ml)
  /\ buf (ch after)
     = buf (ch m) ++ take (capacity (ch m) - length (buf (ch m))) offered
  /\ ((length (buf (ch m)) + length offered <= capacity (ch m))%nat ->
      buf (ch after) = buf (ch m) ++ offered)
  /\ offered = rangeMetrics rangeOrder (countOps mss mdsName valid (logger m)).1
  /\ ch (collectMDSSlowOps rangeOrder m)
     = ch (collectMDSSlowOps rangeOrder (withoutMalformed m)).
Proof.
  intros Hperm Hstatus Hops Hsized Hrange valid malformed offered after.
  assert (forall op, op ∈ valid -> op ∈ Ops mso /\ parseFails op = false) as Hvalid.
  { intros op Hop. by apply list_elem_of_filter in Hop as [? ?]. }
  unfold after. rewrite (daemonSlowOps_decoded_state _ _ _ mss mso Hstatus Hops).
  cbn [fst snd logger ch]. unfold emitCounters. fold offered.
  assert (buf (foldl trySend (ch m) offered)
          = buf (ch m) ++ take (capacity (ch m) - length (buf (ch m))) offered)
    as Hafter by (by rewrite emit_take).
  split; [by rewrite countOps_filter|].
  split; [done|].
  split; [|split; [|split; [|split; [|split]]]].
  - intros op Hop. destruct (Hvalid op Hop) as [Hin Hok].
    destruct (labelsOf_valid mss mdsName op Hok) as [ml Hml]. exists ml.
    pose proof (tupleCount_elem mss mdsName valid ml op Hop Hml) as Hpos.
    split; [done|]. split; [done|].
    unfold valid in *. rewrite tupleCount_valid in *.
    pose proof (tupleCount_le mss mdsName (Ops mso) ml) as Hle.
    assert (gobSized ml) as Hsz by (apply (tupleCount_pos mss mdsName (Ops mso)); [done|lia]).
    apply (rangeMetrics_one rangeOrder Hperm); [|exact Hsz|].
    + intros k w. by apply countOps_keys.
    + rewrite countOps_lookup by done.
      destruct (tupleCount mss mdsName (Ops mso) ml) as [|n]; [lia|].
      rewrite int32_small; [done|].
      change (2 ^ 31)%Z with 2147483648%Z in *. lia.
  - intros s Hs. unfold offered, rangeMetrics in Hs.
    apply list_elem_of_fmap in Hs as ([k v] & -> & Hkv).
    rewrite Hperm in Hkv. apply elem_of_map_to_list in Hkv.
    rewrite countOps_filter in Hkv. cbn [fst] in Hkv.
    destruct (countOps_tuples mss mdsName valid (logger m) k v
                (batchSized_valid _ _ _ Hsized) Hkv)
      as (ml & op & -> & Hsz & Hin & Hml).
    exists op, ml. split; [done|]. split; [done|].
    by rewrite blockedOpsMetric_Hash.
  - exact Hafter.
  - intros Hroom. rewrite Hafter. by rewrite take_ge by lia.
  - unfold offered. by rewrite countOps_filter.
  - apply collectMDSSlowOps_malformed.
Qed.

Lemma malformed_records_are_skipped_witness :
  let mss := mkStatus "up:active" "cephfs" in
  let request := mkOp exampleDescription "failed to xlock, waiting" "client_request" in
  let garbled := mkOp "client_request(garbage)" "dispatched" "client_request" in
  let internal := mkOp "internal op exportdir:mds.0:1" "dispatched" "internal_op" in
  let mso := mkSlowOp [request; garbled; internal; request] in
  let m := NewMDSCollector [] false (Failed (ErrNew "unused")) (Failed (ErrNew "unused"))
             (fun _ => Decoded mss) (fun _ => Decoded mso) in
  let valid := filter (fun op => parseFails op = false) (Ops mso) in
  let malformed := filter (fun op => parseFails op = true) (Ops mso) in
  let offered := rangeMetrics map_to_list (countOps mss "mds.a" (Ops mso) (logger m)).1 in
  let after := (daemonSlowOps map_to_list "mds.a" m).1 in
  logger after = logger m ++ map (parseErrorEntry "mds.a") malformed
  /\ (daemonSlowOps map_to_list "mds.a" m).2 = true
  /\ (forall op, op ∈ valid ->
        exists ml,
          labelsOf mss "mds.a" op = Ok ml
          /\ (1 <= tupleCount mss "mds.a" valid ml)%nat
          /\ filter (fun s => labelValues s = Gob.fieldsOf ml) offered
             = [MustNewConstMetric MDSBlockedOps CounterValue
                  (Z.of_nat (tupleCount mss "mds.a" valid ml)) (Gob.fieldsOf ml)])
  /\ (forall s, s ∈ offered ->
        exists op ml,
          op ∈ valid /\ labelsOf mss "mds.a" op = Ok ml
          /\ labelValues s = Gob.fieldsOf ml)
  /\ buf (ch after)
     = buf (ch m) ++ take (capacity (ch m) - length (buf (ch m))) offered
  /\ ((length (buf (ch m)) + length offered <= capacity (ch m))%nat ->
      buf (ch after) = buf (ch m) ++ offered)
  /\ offered = rangeMetrics map_to_list (countOps mss "mds.a" valid (logger m)).1
  /\ ch (collectMDSSlowOps map_to_list m)
     = ch (collectMDSSlowOps map_to_list (withoutMalformed m)).
Proof.
  intros mss request garbled internal mso m.
  apply (malformed_records_are_skipped map_to_list "mds.a" m mss mso).
  - intros mm. reflexivity.
  - reflexivity.
  - reflexivity.
  - unfold batchSized.
    repeat (apply Forall_cons_2; [vm_compute; first [reflexivity|exact I]|]).
    apply Forall_nil_2.
  - vm_compute. reflexivity.
Defined.

(** C3 as stated fails when the channel is full: here it holds its 100
    samples of the daemon states when the pass reaches a batch of a
    malformed client request and a valid one.  The malformed record is
    logged and skipped, the valid one is counted (the sample offered has
    the value 1), and its write takes the default branch: the channel is as
    before and holds no sample for the tuple of the valid record. *)
Lemma full_channel_valid_record_not_written :
  let mss := mkStatus "up:active" "cephfs" in
  let request := mkOp exampleDescription "failed to xlock, waiting" "client_request" in
  let garbled := mkOp "client_request(garbage)" "dispatched" "client_request" in
  let mso := mkSlowOp [garbled; request] in
  let state := MustNewConstMetric MDSState GaugeValue 1 ["cephfs"; "a"; "0"; "up:active"] in
  let m := setCh (NewMDSCollector [] true (Failed (ErrNew "unused"))
                    (Failed (ErrNew "unused"))
                    (fun _ => Decoded mss) (fun _ => Decoded mso))
                 (mkChan (replicate 100 state) 100) in
  let ml := mkLabels "cephfs" "mds.a" "up:active" "client_request" "rmdir"
              "failed to xlock, waiting" "0x10000000030" in
  let after := (daemonSlowOps map_to_list "mds.a" m).1 in
  parseFails garbled = true
  /\ labelsOf mss "mds.a" request = Ok ml
  /\ logger after = [parseErrorEntry "mds.a" garbled]
  /\ rangeMetrics map_to_list (countOps mss "mds.a" (Ops mso) (logger m)).1
     = [MustNewConstMetric MDSBlockedOps CounterValue 1 (Gob.fieldsOf ml)]
  /\ ch after = ch m
  /\ filter (fun s => labelValues s = Gob.fieldsOf ml) (buf (ch after)) = [].
Proof. vm_compute. repeat split; reflexivity. Qed.

(** * Further properties of the collector *)

(** ** What a collection does to the channel and the log *)

Section OfferFacts.
Variable rangeOrder : gmap string Z -> list (string * Z).

Lemma offeredTo_refl (P : Metric -> Prop) (m : MDSCollector) : offeredTo P m m [].
Proof. unfold offeredTo. repeat split; done. Qed.

Lemma offeredTo_trans (P : Metric -> Prop) (m m1 m2 : MDSCollector)
      (o1 o2 : list Metric) :
  offeredTo P m m1 o1 -> offeredTo P m1 m2 o2 -> offeredTo P m m2 (o1 ++ o2).
Proof.
  intros (Hb1 & Hp1 & Hs1 & Hh1 & Hst1 & Ho1 & Hc1 & Hw1 & Hl1)
         (Hb2 & Hp2 & Hs2 & Hh2 & Hst2 & Ho2 & Hc2 & Hw2 & Hl2).
  unfold offeredTo. repeat split; try congruence.
  - by rewrite Hc2, Hc1, foldl_app.
  - by apply Forall_app.
  - by etrans.
Qed.

Lemma offeredTo_weaken (P Q : Metric -> Prop) (m m' : MDSCollector)
      (o : list Metric) :
  (forall s, P s -> Q s) -> offeredTo P m m' o -> offeredTo Q m m' o.
Proof.
  intros HPQ (Hb & Hp & Hs & Hh & Hst & Ho & Hc & Hw & Hl).
  unfold offeredTo. repeat split; try done. by eapply Forall_impl.
Qed.

Lemma offeredTo_log (P : Metric -> Prop) (m : MDSCollector) (e : Entry) :
  offeredTo P m (logEntry m e) [].
Proof.
  unfold offeredTo. repeat split; try done. cbn. by apply prefix_app_r.
Qed.

Lemma offeredTo_setCh (P : Metric -> Prop) (m : MDSCollector) (ms : list Metric) :
  Forall P ms -> offeredTo P m (setCh m (foldl trySend (ch m) ms)) ms.
Proof. intros Hms. unfold offeredTo. repeat split; done. Qed.

Lemma blockedOpsSample_wellFormed (s : Metric) : blockedOpsSample s -> wellFormed s.
Proof. intros (Hd & Ht & Hl). unfold wellFormed. by rewrite Hd. Qed.

Lemma rangeMetrics_blockedOps (mm : gmap string Z) :
  Forall blockedOpsSample (rangeMetrics rangeOrder mm).
Proof.
  unfold rangeMetrics. apply Forall_forall. intros s Hs.
  apply list_elem_of_In, in_map_iff in Hs as (kv & <- & _). by repeat split.
Qed.

Lemma mdsStateMetrics_wellFormed (ms : mdsStat) : Forall wellFormed (mdsStateMetrics ms).
Proof.
  unfold mdsStateMetrics. apply Forall_forall. intros s Hs.
  apply list_elem_of_In, in_flat_map in Hs as (fs & _ & Hs).
  apply in_map_iff in Hs as (info & <- & _). by repeat split.
Qed.

Lemma countOps_log_prefix (mss : mdsStatus) (mdsName : string) (ops : list slowOp)
      (lg : list Entry) :
  lg `prefix_of` (countOps mss mdsName ops lg).2.
Proof. rewrite countOps_filter. cbn. by apply prefix_app_r. Qed.

Lemma daemonSlowOps_offers (mdsName : string) (m : MDSCollector) :
  exists offered,
    offeredTo blockedOpsSample m (daemonSlowOps rangeOrder mdsName m).1 offered.
Proof.
  unfold daemonSlowOps.
  destruct (runMDSStatusFn m mdsName) as [e|e|mss];
    [eexists; apply offeredTo_log..|].
  destruct (runBlockedOpsCheckFn m mdsName) as [e|e|mso];
    [eexists; apply offeredTo_log..|].
  pose proof (countOps_log_prefix mss mdsName (Ops mso) (logger m)) as Hlog.
  destruct (countOps mss mdsName (Ops mso) (logger m)) as [mm lg].
  exists (rangeMetrics rangeOrder mm). unfold offeredTo. cbn.
  repeat split; try done. apply rangeMetrics_blockedOps.
Qed.

Lemma detailLoop_offers (details : list string) (m : MDSCollector) :
  exists offered,
    offeredTo blockedOpsSample m (detailLoop rangeOrder details m) offered.
Proof.
  revert m. induction details as [|message rest IH]; intros m.
  - exists []. apply offeredTo_refl.
  - cbn [detailLoop]. destruct (mdsNameOf message) as [mdsName|].
    + destruct (daemonSlowOps_offers mdsName m) as [o1 H1].
      destruct (daemonSlowOps rangeOrder mdsName m) as [m1 [|]]; cbn in H1.
      * destruct (IH m1) as [o2 H2]. exists (o1 ++ o2). by eapply offeredTo_trans.
      * by exists o1.
    + destruct (IH (logEntry m (LogError
                  "invalid mds slow request message found, check syntax"
                  (ErrNew "incorrect part count") [("message", message)])))
        as [o2 H2].
      exists ([] ++ o2). eapply offeredTo_trans; [apply offeredTo_log|exact H2].
Qed.

Lemma collectMDSSlowOps_offers (m : MDSCollector) :
  exists offered,
    offeredTo blockedOpsSample m (collectMDSSlowOps rangeOrder m) offered.
Proof.
  unfold collectMDSSlowOps.
  destruct (runCephHealthDetailFn m) as [e|e|hc];
    [eexists; apply offeredTo_log..|].
  destruct (Checks hc !! "MDS_SLOW_REQUEST") as [check|].
  - apply detailLoop_offers.
  - exists []. apply offeredTo_refl.
Qed.

(** The two loops of [collect] offer the state samples in order. *)
Lemma collect_state_loop (ms : mdsStat) (c : Chan) :
  foldl (fun c fs => foldl (fun c info => trySend c (mdsStateMetric fs info))
                       c (fs_Info fs))
        c (Filesystems ms)
  = foldl trySend c (mdsStateMetrics ms).
Proof.
  unfold mdsStateMetrics. revert c.
  induction (Filesystems ms) as [|fs fss IH]; intros c; [done|].
  cbn [foldl flat_map]. rewrite foldl_app, IH. f_equal.
  generalize (fs_Info fs). clear. intros infos. revert c.
  induction infos as [|info infos IH]; intros c; [done|]. cbn. apply IH.
Qed.

Lemma collect_offers (m : MDSCollector) :
  exists offered, offeredTo wellFormed m (collect rangeOrder m).1 offered.
Proof.
  unfold collect.
  destruct (runMDSStatFn m) as [e|e|ms]; [exists []; apply offeredTo_refl..|].
  cbn [fst]. rewrite collect_state_loop.
  destruct (collectMDSSlowOps_offers
              (setCh m (foldl trySend (ch m) (mdsStateMetrics ms)))) as [o2 H2].
  exists (mdsStateMetrics ms ++ o2).
  eapply offeredTo_trans;
    [|exact (offeredTo_weaken _ _ _ _ _ blockedOpsSample_wellFormed H2)].
  apply offeredTo_setCh, mdsStateMetrics_wellFormed.
Qed.

Lemma loggedCollect_offers (m : MDSCollector) :
  exists offered, offeredTo wellFormed m (loggedCollect rangeOrder m) offered.
Proof.
  unfold loggedCollect.
  set (m0 := logEntry m _).
  destruct (collect_offers m0) as [o H].
  destruct (collect rangeOrder m0) as [m1 [e|]]; cbn [fst] in H.
  - exists (([] ++ o) ++ []).
    eapply offeredTo_trans; [|apply offeredTo_log].
    eapply offeredTo_trans; [apply offeredTo_log|exact H].
  - exists ([] ++ o). eapply offeredTo_trans; [apply offeredTo_log|exact H].
Qed.

Lemma backgroundCollect_offers (n : nat) (m : MDSCollector) :
  exists offered, offeredTo wellFormed m (backgroundCollect rangeOrder n m) offered.
Proof.
  revert m. induction n as [|n IH]; intros m.
  - exists []. apply offeredTo_refl.
  - cbn [backgroundCollect].
    destruct (loggedCollect_offers m) as [o1 H1].
    destruct (IH (loggedCollect rangeOrder m)) as [o2 H2].
    exists (o1 ++ o2). by eapply offeredTo_trans.
Qed.

Lemma offeredTo_buf (P : Metric -> Prop) (m m' : MDSCollector)
      (offered : list Metric) :
  offeredTo P m m' offered ->
  capacity (ch m') = capacity (ch m)
  /\ buf (ch m')
     = buf (ch m) ++ take (capacity (ch m) - length (buf (ch m))) offered.
Proof.
  intros (_ & _ & _ & _ & _ & _ & Hch & _ & _). rewrite Hch, emit_take. done.
Qed.

(** [Collect] in one piece: the round of collection or the [go] statement,
    then the drain. *)
Lemma Collect_drained (m : MDSCollector) :
  Collect rangeOrder m
  = (setCh (if background m then spawn m else loggedCollect rangeOrder m)
       (mkChan [] (capacity (ch (if background m then spawn m
                                 else loggedCollect rangeOrder m)))),
     buf (ch (if background m then spawn m else loggedCollect rangeOrder m))).
Proof.
  unfold Collect. destruct (background m) eqn:Hbg; cbn [negb].
  - rewrite Hbg. unfold drain. by rewrite drainLoop_all.
  - destruct (loggedCollect_offers m) as [o (Hb & _)]. rewrite Hb, Hbg.
    unfold drain. by rewrite drainLoop_all.
Qed.

End OfferFacts.

(** X1: whatever the cluster answers, any number of rounds of the polling
    loop (a single [collect] is one round) leave the mode, the goroutines
    and the capacity of the channel as they are; the samples already
    buffered stay in place and the new ones follow them, as long as there
    is a free slot; the log only grows; and a buffer within its capacity
    stays within it. *)
Theorem polling_keeps_buffer_bounded rangeOrder (n : nat) (m : MDSCollector) :
  let m' := backgroundCollect rangeOrder n m in
  background m' = background m
  /\ pollers m' = pollers m
  /\ capacity (ch m') = capacity (ch m)
  /\ (exists offered,
        buf (ch m')
        = buf (ch m) ++ take (capacity (ch m) - length (buf (ch m))) offered)
  /\ buf (ch m) `prefix_of` buf (ch m')
  /\ logger m `prefix_of` logger m'
  /\ ((length (buf (ch m)) <= capacity (ch m))%nat ->
      (length (buf (ch m')) <= capacity (ch m))%nat).
Proof.
  intros m'. destruct (backgroundCollect_offers rangeOrder n m) as [offered H].
  destruct (offeredTo_buf _ _ _ _ H) as [Hcap Hbuf].
  destruct H as (Hb & Hp & _ & _ & _ & _ & _ & _ & Hlog).
  repeat split; try done.
  - by exists offered.
  - unfold m'. rewrite Hbuf. by apply prefix_app_r.
  - intros Hle. unfold m'. rewrite Hbuf, length_app, length_take. lia.
Qed.

(** X2: once the channel is full, polling rounds do not change it: the
    buffered samples are the ones a later scrape gets, however many rounds
    have run since. *)
Theorem full_buffer_survives_polling rangeOrder (n : nat) (m : MDSCollector) :
  (capacity (ch m) <= length (buf (ch m)))%nat ->
  ch (backgroundCollect rangeOrder n m) = ch m.
Proof.
  intros Hfull. destruct (backgroundCollect_offers rangeOrder n m) as [offered H].
  destruct (offeredTo_buf _ _ _ _ H) as [Hcap Hbuf].
  replace (capacity (ch m) - length (buf (ch m)))%nat with 0%nat in Hbuf by lia.
  rewrite take_0, app_nil_r in Hbuf.
  destruct (ch (backgroundCollect rangeOrder n m)), (ch m). cbn in *. congruence.
Qed.

Lemma full_buffer_survives_polling_witness :
  let state := MustNewConstMetric MDSState GaugeValue 1 ["cephfs"; "a"; "0"; "up:active"] in
  let m := setCh (NewMDSCollector [] true
                    (Decoded (mkStat [mkFilesystem "cephfs" [mkInfo "b" 1 "up:standby"]]))
                    (Failed (ErrNew "timeout"))
                    (fun _ => Failed (ErrNew "unused"))
                    (fun _ => Failed (ErrNew "unused")))
                 (mkChan (replicate 100 state) 100) in
  ch (backgroundCollect map_to_list 3 m) = ch m.
Proof.
  intros state m. apply (full_buffer_survives_polling map_to_list 3 m).
  vm_compute. lia.
Defined.

(** ** Scrapes *)

Section AlongsideFacts.

Lemma writesOf_snoc (schedule : list event) (ev : event) :
  writesOf (schedule ++ [ev])
  = writesOf schedule ++ match ev with Writes x => [x] | _ => [] end.
Proof. unfold writesOf. rewrite flat_map_app. cbn. by rewrite app_nil_r. Qed.

Lemma logsOf_snoc (schedule : list event) (ev : event) :
  logsOf (schedule ++ [ev])
  = logsOf schedule ++ match ev with Logs e => [e] | _ => [] end.
Proof. unfold logsOf. rewrite flat_map_app. cbn. by rewrite app_nil_r. Qed.

(** What a schedule does to a collector and a scrape that has sent nothing
    yet. *)
Lemma scrapeSteps_inv (schedule : list event) (m : MDSCollector) :
  let r := foldl scrapeStep (m, newDrainer) schedule in
  background r.1 = background m
  /\ pollers r.1 = pollers m
  /\ capacity (ch r.1) = capacity (ch m)
  /\ logger r.1 = logger m ++ logsOf schedule
  /\ (exists written,
        written `sublist_of` writesOf schedule
        /\ sent r.2 ++ buf (ch r.1) = buf (ch m) ++ written)
  /\ (returned r.2 = true -> buf (ch m) `prefix_of` sent r.2).
Proof.
  induction schedule as [|ev schedule IH] using rev_ind.
  - cbn. rewrite app_nil_r. repeat split; try done.
    exists []. by rewrite app_nil_r.
  - rewrite foldl_app. cbn [foldl].
    destruct (foldl scrapeStep (m, newDrainer) schedule) as [m1 d1].
    cbn [fst snd] in IH. destruct IH as (Hb & Hp & Hcap & Hlog & Hw & Hret).
    destruct Hw as (written & Hsub & Hcons).
    rewrite writesOf_snoc, logsOf_snoc.
    destruct ev as [|x|e]; cbn [scrapeStep fst snd].
    + unfold drainStep. destruct (returned d1) eqn:Hd1.
      * cbn. rewrite !app_nil_r. destruct (ch m1). repeat split; try done.
        -- by exists written.
        -- intros _. by apply Hret.
      * unfold tryRecv. destruct (buf (ch m1)) as [|cc rest] eqn:Hbuf.
        -- cbn. rewrite !app_nil_r. repeat split; try done.
           ++ exists written. by rewrite Hbuf.
           ++ intros _. rewrite app_nil_r in Hcons. rewrite Hcons.
              by apply prefix_app_r.
        -- cbn. rewrite !app_nil_r. repeat split; try done.
           exists written. split; [done|]. by rewrite <- app_assoc.
    + unfold trySend, send.
      destruct (length (buf (ch m1)) <? capacity (ch m1))%nat; cbn.
      * rewrite app_nil_r. repeat split; try done.
        exists (written ++ [x]). split; [by apply sublist_app|].
        by rewrite !app_assoc, Hcons.
      * rewrite app_nil_r. destruct (ch m1). repeat split; try done.
        exists written. split; [by apply sublist_inserts_r|done].
    + cbn. rewrite !app_nil_r, Hlog, app_assoc. repeat split; try done.
      by exists written.
Qed.

Lemma setCh_ch (m : MDSCollector) : setCh m (ch m) = m.
Proof. by destruct m. Qed.

(** A scrape that has returned runs no round. *)
Lemma drains_returned (n : nat) (m : MDSCollector) (d : drainer) :
  returned d = true ->
  foldl scrapeStep (m, d) (replicate n Drains) = (m, d).
Proof.
  intros Hd. induction n as [|n IH]; [done|].
  cbn [replicate foldl scrapeStep fst snd]. unfold drainStep. rewrite Hd.
  by rewrite setCh_ch.
Qed.

(** The rounds of the loop of a scrape on a channel nobody writes to. *)
Lemma drains_alone (n : nat) (m : MDSCollector) (d : drainer) :
  returned d = false ->
  (length (buf (ch m)) < n)%nat ->
  foldl scrapeStep (m, d) (replicate n Drains)
  = (setCh m (mkChan [] (capacity (ch m))), mkDrainer (sent d ++ buf (ch m)) true).
Proof.
  revert m d. induction n as [|n IH]; intros m d Hd Hn; [lia|].
  cbn [replicate foldl scrapeStep fst snd]. unfold drainStep. rewrite Hd.
  unfold tryRecv. destruct (buf (ch m)) as [|cc rest] eqn:Hbuf.
  - rewrite app_nil_r, drains_returned by done. f_equal.
    destruct m as [? ? [b c] ? ? ? ? ?]. cbn in *. by subst.
  - rewrite IH; [|done|cbn in *; lia]. cbn. by rewrite <- app_assoc.
Qed.

End AlongsideFacts.

(** X3: a call of [Collect] in background mode next to the polling
    goroutines, whatever they write and log while the call is in its loop
    and in whatever order things happen.  The call runs no collection and
    logs nothing itself: it starts one goroutine, and the log grows by the
    entries of the goroutines only.  The samples it has sent, followed by
    the samples in the channel, are the samples buffered when it began,
    followed by those writes of the goroutines that found a free slot: the
    call sends the buffered samples first and in their order, each once,
    and a call that has returned has sent all of them.  When no goroutine
    writes in the meantime the call is [Collect] as defined above; when a
    goroutine writes a sample before the loop finds the channel empty, the
    call sends this sample too. *)
Theorem background_scrape_sends_buffer_first rangeOrder (schedule : list event)
        (m : MDSCollector) :
  background m = true ->
  let r := CollectAlongside rangeOrder schedule m in
  background r.1 = true
  /\ pollers r.1 = S (pollers m)
  /\ capacity (ch r.1) = capacity (ch m)
  /\ logger r.1 = logger m ++ logsOf schedule
  /\ (exists written,
        written `sublist_of` writesOf schedule
        /\ sent r.2 ++ buf (ch r.1) = buf (ch m) ++ written)
  /\ (returned r.2 = true -> buf (ch m) `prefix_of` sent r.2)
  /\ (forall n, (length (buf (ch m)) < n)%nat ->
        CollectAlongside rangeOrder (replicate n Drains) m
        = ((Collect rangeOrder m).1, mkDrainer (Collect rangeOrder m).2 true))
  /\ (forall x n, (length (buf (ch m)) < capacity (ch m))%nat ->
        (length (buf (ch m)) + 1 < n)%nat ->
        sent (CollectAlongside rangeOrder (Writes x :: replicate n Drains) m).2
        = buf (ch m) ++ [x]).
Proof.
  intros Hbg r. unfold r, CollectAlongside. rewrite Hbg. cbn [negb]. rewrite Hbg.
  destruct (scrapeSteps_inv schedule (spawn m)) as (Hb & Hp & Hcap & Hlog & Hw & Hret).
  split; [by rewrite Hb|]. split; [done|]. split; [done|]. split; [done|].
  split; [done|]. split; [done|]. split.
  - intros n Hn. rewrite drains_alone by done.
    rewrite Collect_drained, Hbg. done.
  - intros x n Hroom Hn. cbn [foldl scrapeStep fst snd].
    rewrite drains_alone; [| done |].
    + cbn [snd sent newDrainer ch setCh spawn]. unfold trySend, send.
      apply Nat.ltb_lt in Hroom. by rewrite Hroom.
    + cbn [ch setCh spawn fst]. unfold trySend, send.
      apply Nat.ltb_lt in Hroom. rewrite Hroom. cbn. rewrite length_app. cbn. lia.
Qed.

Lemma background_scrape_sends_buffer_first_witness :
  let a := MustNewConstMetric MDSState GaugeValue 1 ["cephfs"; "a"; "0"; "up:active"] in
  let b := MustNewConstMetric MDSState GaugeValue 1 ["cephfs"; "b"; "1"; "up:active"] in
  let m := setCh (NewMDSCollector [] true (Failed (ErrNew "timeout"))
                    (Failed (ErrNew "timeout"))
                    (fun _ => Failed (ErrNew "unused"))
                    (fun _ => Failed (ErrNew "unused")))
                 (mkChan [a] 100) in
  let schedule := [Logs (LogDebug "collecting MDS stats" [("background", "true")]);
                   Drains; Writes b; Drains; Drains; Writes a] in
  let r := CollectAlongside map_to_list schedule m in
  (sent r.2 = [a; b] /\ buf (ch r.1) = [a] /\ returned r.2 = true)
  /\ background r.1 = true
  /\ pollers r.1 = S (pollers m)
  /\ capacity (ch r.1) = capacity (ch m)
  /\ logger r.1 = logger m ++ logsOf schedule
  /\ (exists written,
        written `sublist_of` writesOf schedule
        /\ sent r.2 ++ buf (ch r.1) = buf (ch m) ++ written)
  /\ (returned r.2 = true -> buf (ch m) `prefix_of` sent r.2)
  /\ (forall n, (length (buf (ch m)) < n)%nat ->
        CollectAlongside map_to_list (replicate n Drains) m
        = ((Collect map_to_list m).1, mkDrainer (Collect map_to_list m).2 true))
  /\ (forall x n, (length (buf (ch m)) < capacity (ch m))%nat ->
        (length (buf (ch m)) + 1 < n)%nat ->
        sent (CollectAlongside map_to_list (Writes x :: replicate n Drains) m).2
        = buf (ch m) ++ [x]).
Proof.
  intros a b m schedule. split; [by vm_compute|].
  apply (background_scrape_sends_buffer_first map_to_list schedule m). reflexivity.
Defined.

Lemma scrapes_foreground rangeOrder (n : nat) (m : MDSCollector) :
  background m = false -> buf (ch m) = [] ->
  sameButLog m (scrapes rangeOrder n m).
Proof.
  intros Hbg Hbuf. induction n as [|n IH]; [by repeat split|].
  change (scrapes rangeOrder (S n) m)
    with ((Collect rangeOrder (scrapes rangeOrder n m)).1).
  set (mn := scrapes rangeOrder n m) in *.
  destruct IH as (Hb & Hp & Hs & Hh & Hst & Ho & Hc).
  rewrite Collect_drained. rewrite Hb, Hbg. cbn [fst].
  destruct (loggedCollect_offers rangeOrder mn)
    as [o (Hb' & Hp' & Hs' & Hh' & Hst' & Ho' & Hc' & _ & _)].
  assert (capacity (ch (loggedCollect rangeOrder mn)) = capacity (ch mn)) as Hcap
      by (rewrite Hc', emit_take; done).
  unfold sameButLog. cbn. repeat split; try congruence.
  rewrite Hcap, Hc. destruct (ch m). cbn in Hbuf. by subst.
Qed.

(** X4: a collector set up in foreground mode sends at most 100 samples to
    each scrape, whatever the cluster holds: what does not fit into the
    channel during the collection of a scrape is not sent.  No scrape leaves
    a sample in the buffer or starts a goroutine. *)
Theorem foreground_scrape_at_most_100 rangeOrder (lg : list Entry)
        (stat : reply mdsStat) (health : reply healthDetailCheck)
        (status : string -> reply mdsStatus) (blockedOps : string -> reply mdsSlowOp)
        (n : nat) :
  let m := scrapes rangeOrder n
             (NewMDSCollector lg false stat health status blockedOps) in
  (length (Collect rangeOrder m).2 <= 100)%nat
  /\ buf (ch (Collect rangeOrder m).1) = []
  /\ pollers (Collect rangeOrder m).1 = 0%nat.
Proof.
  intros m.
  destruct (scrapes_foreground rangeOrder n
              (NewMDSCollector lg false stat health status blockedOps)
              eq_refl eq_refl) as (Hb & Hp & _ & _ & _ & _ & Hc).
  fold m in Hb, Hp, Hc. cbn in Hb, Hp, Hc.
  rewrite Collect_drained, Hb. cbn [fst snd].
  destruct (loggedCollect_offers rangeOrder m) as [o H].
  destruct (offeredTo_buf _ _ _ _ H) as [Hcap Hbuf].
  destruct H as (_ & Hp' & _).
  split; [|split; [done|cbn; congruence]].
  rewrite Hbuf, Hc. cbn. rewrite length_take. lia.
Qed.

(** X6: when [mds stat] fails or its answer does not decode, a scrape in
    foreground mode gets no new sample at all: the health detail is not
    asked for, so the blocked operations are not sampled either.  The
    scrape sends what was buffered and logs the error of [collect]. *)
Theorem stat_failure_skips_slow_ops rangeOrder (m : MDSCollector) :
  background m = false ->
  (forall ms, runMDSStatFn m <> Decoded ms) ->
  (Collect rangeOrder m).2 = buf (ch m)
  /\ exists e,
       logger (Collect rangeOrder m).1
       = logger m ++ [LogDebug "collecting MDS stats" [("background", "false")];
                      LogError "error collecting MDS stats" e
                        [("background", "false")]].
Proof.
  intros Hbg Hstat. rewrite Collect_drained, Hbg. cbn [fst snd].
  unfold loggedCollect, collect. rewrite Hbg. cbn [runMDSStatFn logEntry boolField].
  destruct (runMDSStatFn m) as [e|e|ms]; [| |by destruct (Hstat ms)].
  - split; [done|]. eexists. cbn. by rewrite <- app_assoc.
  - split; [done|]. eexists. cbn. by rewrite <- app_assoc.
Qed.

Lemma stat_failure_skips_slow_ops_witness :
  let mss := mkStatus "up:active" "cephfs" in
  let request := mkOp exampleDescription "failed to xlock, waiting" "client_request" in
  let health := mkHealth {[ "MDS_SLOW_REQUEST" :=
                  mkCheck ["mds.a(mds.0): 1 slow requests are blocked > 30 secs"] ]} in
  let m := NewMDSCollector [] false (Failed (ErrNew "exit status 1"))
             (Decoded health) (fun _ => Decoded mss)
             (fun _ => Decoded (mkSlowOp [request])) in
  (Collect map_to_list m).2 = buf (ch m)
  /\ exists e,
       logger (Collect map_to_list m).1
       = logger m ++ [LogDebug "collecting MDS stats" [("background", "false")];
                      LogError "error collecting MDS stats" e
                        [("background", "false")]].
Proof.
  intros mss request health m.
  apply (stat_failure_skips_slow_ops map_to_list m); [reflexivity|].
  intros ms. discriminate.
Defined.

(** X7: when [mds stat] decodes, [collect] reports no error, whatever the
    pass over the blocked operations meets.  It offers to the channel one
    gauge of value 1 for each daemon of each filesystem, in the order of
    the answer, and after them the counters of the blocked operations; the
    channel takes them in this order as long as it has a free slot. *)
Theorem collect_state_then_slow_ops rangeOrder (m : MDSCollector) (ms : mdsStat) :
  runMDSStatFn m = Decoded ms ->
  (collect rangeOrder m).2 = None
  /\ exists slowOps,
       Forall blockedOpsSample slowOps
       /\ buf (ch (collect rangeOrder m).1)
          = buf (ch m) ++ take (capacity (ch m) - length (buf (ch m)))
                            (mdsStateMetrics ms ++ slowOps).
Proof.
  intros Hstat. unfold collect. rewrite Hstat. cbn [fst snd]. split; [done|].
  rewrite collect_state_loop.
  destruct (collectMDSSlowOps_offers rangeOrder
              (setCh m (foldl trySend (ch m) (mdsStateMetrics ms))))
    as [slowOps (_ & _ & _ & _ & _ & _ & Hch & Hall & _)].
  exists slowOps. split; [exact Hall|].
  rewrite Hch. cbn [ch setCh]. by rewrite <- foldl_app, emit_take.
Qed.

Lemma collect_state_then_slow_ops_witness :
  let ms := mkStat [mkFilesystem "cephfs" [mkInfo "a" 0 "up:active";
                                           mkInfo "b" (-1) "up:standby"]] in
  let m := NewMDSCollector [] false (Decoded ms) (Failed (ErrNew "timeout"))
             (fun _ => Failed (ErrNew "unused")) (fun _ => Failed (ErrNew "unused")) in
  (collect map_to_list m).2 = None
  /\ exists slowOps,
       Forall blockedOpsSample slowOps
       /\ buf (ch (collect map_to_list m).1)
          = buf (ch m) ++ take (capacity (ch m) - length (buf (ch m)))
                            (mdsStateMetrics ms ++ slowOps).
Proof.
  intros ms m. apply (collect_state_then_slow_ops map_to_list m ms). reflexivity.
Defined.

(** ** The samples of one batch *)

Section BatchSamples.
Variable rangeOrder : gmap string Z -> list (string * Z).
Hypothesis rangeOrder_perm : forall mm, rangeOrder mm ≡ₚ map_to_list mm.
Variables (mss : mdsStatus) (mdsName : string).

Lemma NoDup_map_on {A B : Type} (g : A -> B) (l : list A) :
  (forall x y, x ∈ l -> y ∈ l -> g x = g y -> x = y) ->
  NoDup l -> NoDup (map g l).
Proof.
  intros Hinj Hl. induction Hl as [|x l Hx Hl IH]; [constructor|].
  cbn [map]. apply NoDup_cons. split.
  - intros Hin. apply list_elem_of_In, in_map_iff in Hin as (y & Hxy & Hy).
    apply list_elem_of_In in Hy.
    assert (y = x) as -> by (apply Hinj; [by right|by left|done]). done.
  - apply IH. intros y z Hy Hz. apply Hinj; by right.
Qed.

Lemma rangeMetrics_labels_NoDup (mm : gmap string Z) :
  (forall k w, mm !! k = Some w -> exists ml, k = Hash ml /\ gobSized ml) ->
  NoDup (map labelValues (rangeMetrics rangeOrder mm)).
Proof.
  intros Hkeys. unfold rangeMetrics. rewrite map_map.
  rewrite (Permutation_map _ (rangeOrder_perm mm)).
  apply NoDup_map_on; [|apply NoDup_map_to_list].
  intros [k v] [k' v'] Hkv Hkv' Hlabels.
  apply elem_of_map_to_list in Hkv, Hkv'.
  destruct (Hkeys k v Hkv) as (ml & -> & Hml).
  destruct (Hkeys k' v' Hkv') as (ml' & -> & Hml').
  rewrite !blockedOpsMetric_Hash in Hlabels by done. cbn in Hlabels.
  apply fieldsOf_inj in Hlabels as ->. congruence.
Qed.

Lemma total_perm {A : Type} (g : A -> Z) (l l' : list A) :
  l ≡ₚ l' ->
  foldr (fun x acc => (g x + acc)%Z) 0%Z l = foldr (fun x acc => (g x + acc)%Z) 0%Z l'.
Proof. induction 1; cbn; lia. Qed.

Lemma countsTo_empty : countsTo ∅ 0.
Proof.
  unfold countsTo, totalCount. rewrite map_to_list_empty, map_size_empty.
  split; [done|]. split; [done|]. apply map_Forall_empty.
Qed.

Lemma countsTo_addOne (mm : gmap string Z) (n : nat) (k : string) :
  (Z.of_nat (S n) < 2 ^ 31)%Z ->
  countsTo mm n -> countsTo (addOne mm k) (S n).
Proof.
  change (2 ^ 31)%Z with 2147483648%Z.
  intros Hn (Hsum & Hsize & Hall). unfold addOne, countsTo, totalCount in *.
  destruct (mm !! k) as [v|] eqn:Hk; cbn [default from_option id].
  - pose proof (map_Forall_lookup_1 _ _ _ _ Hall Hk) as Hv. cbn beta in Hv.
    rewrite int32_small by (change (2 ^ 31)%Z with 2147483648%Z; lia).
    split; [|split].
    + rewrite <- insert_delete_eq.
      rewrite (total_perm snd _ _ (map_to_list_insert (delete k mm) k (v + 1)%Z
                                     (lookup_delete_eq mm k))).
      rewrite <- (total_perm snd _ _ (map_to_list_delete mm k v Hk)) in Hsum.
      cbn in *. lia.
    + rewrite map_size_insert_Some by done. lia.
    + apply map_Forall_insert_2; [lia|].
      eapply map_Forall_impl; [exact Hall|]. cbn beta. intros; lia.
  - rewrite int32_small by (change (2 ^ 31)%Z with 2147483648%Z; lia).
    split; [|split].
    + rewrite (total_perm snd _ _ (map_to_list_insert mm k 1%Z Hk)). cbn. lia.
    + rewrite map_size_insert_None by done. lia.
    + apply map_Forall_insert_2; [lia|].
      eapply map_Forall_impl; [exact Hall|]. cbn beta. intros; lia.
Qed.

Lemma countOps_countsTo (ops : list slowOp) (lg : list Entry) :
  (Z.of_nat (length ops) < 2 ^ 31)%Z ->
  countsTo (countOps mss mdsName ops lg).1
           (length (filter (fun op => parseFails op = false) ops)).
Proof.
  change (2 ^ 31)%Z with 2147483648%Z.
  induction ops as [|op ops IH] using rev_ind; intros Hlen.
  - apply countsTo_empty.
  - rewrite length_app in Hlen. cbn [length] in Hlen.
    rewrite countOps_snoc, filter_app, filter_cons, filter_nil, length_app.
    unfold countOp. rewrite labelsOf_parseFails.
    destruct (parseFails op) eqn:Hop.
    + rewrite decide_False by done. cbn [length fst]. rewrite Nat.add_0_r.
      apply IH. lia.
    + rewrite decide_True by done. cbn [length].
      destruct (labelsOf_valid mss mdsName op Hop) as [ml ->]. cbn [fst].
      replace (length (filter (fun op => parseFails op = false) ops) + 1)%nat
        with (S (length (filter (fun op => parseFails op = false) ops))) by lia.
      apply countsTo_addOne; [|apply IH; lia].
      pose proof (length_filter (fun op => parseFails op = false) ops).
      change (2 ^ 31)%Z with 2147483648%Z. lia.
Qed.

Lemma totalValue_rangeMetrics (mm : gmap string Z) :
  totalValue (rangeMetrics rangeOrder mm) = totalCount mm.
Proof.
  unfold totalValue, totalCount, rangeMetrics.
  rewrite <- (total_perm snd _ _ (rangeOrder_perm mm)).
  induction (rangeOrder mm) as [|kv l IH]; [done|]. cbn. by rewrite IH.
Qed.

End BatchSamples.

(** X9: the samples of one batch carry pairwise distinct label values:
    the pass never offers two samples of the same series for one daemon.
    (The tuples are tuples gob writes.) *)
Theorem batch_samples_have_distinct_labels rangeOrder (mss : mdsStatus)
        (mdsName : string) (ops : list slowOp) (lg : list Entry) :
  (forall mm, rangeOrder mm ≡ₚ map_to_list mm) ->
  batchSized mss mdsName ops ->
  NoDup (map labelValues (rangeMetrics rangeOrder (countOps mss mdsName ops lg).1)).
Proof.
  intros Hperm Hsized. apply (rangeMetrics_labels_NoDup rangeOrder Hperm).
  intros k w. by apply countOps_keys.
Qed.

Lemma batch_samples_have_distinct_labels_witness :
  let mss := mkStatus "up:active" "cephfs" in
  let request := mkOp exampleDescription "failed to xlock, waiting" "client_request" in
  let internal := mkOp "internal op exportdir:mds.0:1" "dispatched" "internal_op" in
  NoDup (map labelValues
           (rangeMetrics map_to_list
              (countOps mss "mds.a" [request; internal; request] []).1)).
Proof.
  intros mss request internal.
  apply (batch_samples_have_distinct_labels map_to_list mss "mds.a"
           [request; internal; request] []).
  - intros mm. reflexivity.
  - repeat constructor; vm_compute; reflexivity.
Defined.

(** X10: the counters of a batch add up to the number of its records that
    are not malformed: every such record is counted once, in one sample.
    There are no more samples than such records, and every sample has a
    value of at least 1.  (The batch has fewer than 2^31 records, the range
    of the [int32] counters.) *)
Theorem batch_counters_add_up rangeOrder (mss : mdsStatus) (mdsName : string)
        (ops : list slowOp) (lg : list Entry) :
  (forall mm, rangeOrder mm ≡ₚ map_to_list mm) ->
  (Z.of_nat (length ops) < 2 ^ 31)%Z ->
  let offered := rangeMetrics rangeOrder (countOps mss mdsName ops lg).1 in
  let wellFormedOps := filter (fun op => parseFails op = false) ops in
  totalValue offered = Z.of_nat (length wellFormedOps)
  /\ (length offered <= length wellFormedOps)%nat
  /\ Forall (fun s => (1 <= value s)%Z) offered.
Proof.
  intros Hperm Hlen offered wellFormedOps.
  destruct (countOps_countsTo mss mdsName ops lg Hlen) as (Hsum & Hsize & Hall).
  split; [|split].
  - unfold offered. by rewrite totalValue_rangeMetrics.
  - unfold offered, rangeMetrics. rewrite length_map, (Hperm _), length_map_to_list.
    exact Hsize.
  - unfold offered, rangeMetrics. apply Forall_forall. intros s Hs.
    apply list_elem_of_In, in_map_iff in Hs as ([k v] & <- & Hkv).
    apply list_elem_of_In in Hkv. rewrite (Hperm _) in Hkv.
    apply elem_of_map_to_list in Hkv.
    pose proof (map_Forall_lookup_1 _ _ _ _ Hall Hkv) as Hv. cbn in *. lia.
Qed.

Lemma batch_counters_add_up_witness :
  let mss := mkStatus "up:active" "cephfs" in
  let request := mkOp exampleDescription "failed to xlock, waiting" "client_request" in
  let garbled := mkOp "client_request(garbage)" "dispatched" "client_request" in
  let internal := mkOp "internal op exportdir:mds.0:1" "dispatched" "internal_op" in
  let ops := [request; garbled; internal; request] in
  let offered := rangeMetrics map_to_list (countOps mss "mds.a" ops []).1 in
  let wellFormedOps := filter (fun op => parseFails op = false) ops in
  totalValue offered = Z.of_nat (length wellFormedOps)
  /\ (length offered <= length wellFormedOps)%nat
  /\ Forall (fun s => (1 <= value s)%Z) offered.
Proof.
  intros mss request garbled internal ops.
  apply (batch_counters_add_up map_to_list mss "mds.a" ops []).
  - intros mm. reflexivity.
  - vm_compute. reflexivity.
Defined.

(** ** Detail messages *)

Section DetailFacts.

Lemma before_after_first (c : ascii) (s : string) :
  (0 < countByte c s)%nat ->
  s = beforeFirst c s +:+ String c (afterFirst c s)
  /\ countByte c (beforeFirst c s) = 0%nat
  /\ countByte c (afterFirst c s) = (countByte c s - 1)%nat.
Proof.
  induction s as [|a t IH]; cbn [countByte beforeFirst afterFirst]; [lia|].
  destruct (Ascii.eqb a c) eqn:Hac.
  - intros _. apply Ascii.eqb_eq in Hac as ->. split; [done|]. split; [done|lia].
  - intros Hpos. destruct (IH Hpos) as (Heq & Hb & Ha).
    rewrite append_cons. cbn [countByte]. rewrite Hac.
    split; [by rewrite <- Heq|done].
Qed.

Lemma countByte_app (c : ascii) (a b : string) :
  countByte c (a +:+ b) = (countByte c a + countByte c b)%nat.
Proof.
  induction a as [|x a IH]; [done|]. rewrite append_cons. cbn [countByte].
  destruct (Ascii.eqb x c); lia.
Qed.

Lemma beforeFirst_app (c : ascii) (a b : string) :
  countByte c a = 0%nat -> beforeFirst c (a +:+ String c b) = a.
Proof.
  induction a as [|x a IH]; cbn [countByte].
  - intros _. change ("" +:+ String c b) with (String c b). cbn.
    by rewrite Ascii.eqb_refl.
  - rewrite append_cons. cbn [beforeFirst].
    destruct (Ascii.eqb x c); [discriminate|]. intros H. by rewrite IH.
Qed.

End DetailFacts.

(** X11: the messages the pass accepts are the texts [name(tail] in which
    neither the name nor the tail holds a '(', and the daemon asked is
    [name], which may be empty. *)
Theorem accepted_message_shape (message name : string) :
  mdsNameOf message = Some name
  <-> exists tail, message = name +:+ "(" +:+ tail
                   /\ countByte "(" name = 0%nat /\ countByte "(" tail = 0%nat.
Proof.
  rewrite mdsNameOf_count. split.
  - destruct (countByte "(" message =? 1)%nat eqn:Hone; [|discriminate].
    apply Nat.eqb_eq in Hone. intros [= <-].
    destruct (before_after_first "(" message) as (Heq & Hb & Ha); [lia|].
    exists (afterFirst "(" message). split; [exact Heq|]. split; [done|lia].
  - intros (tail & -> & Hname & Htail).
    change ("(" +:+ tail) with (String "(" tail).
    rewrite countByte_app. cbn [countByte]. rewrite Ascii.eqb_refl, Hname, Htail.
    cbn. by rewrite beforeFirst_app.
Qed.

(** ** What the extraction returns *)

Section CaptureFacts.

Lemma substring_app (w s : string) : substring 0 (String.length w) (w +:+ s) = w.
Proof.
  induction w as [|a w IH]; [by destruct s|].
  rewrite append_cons. cbn [String.length substring]. f_equal. exact IH.
Qed.

Lemma consumed_app (w s : string) : consumed (w +:+ s) s = w.
Proof.
  unfold consumed.
  assert (String.length (w +:+ s) - String.length s = String.length w)%nat as ->.
  { pose proof (slen_app w s) as H. unfold slen in H. lia. }
  apply substring_app.
Qed.

Lemma bt_captures {R : Type} (r : re) (s : string) (c : captures)
      (k : string -> captures -> option R) (x : R) :
  bt r s c k = Some x ->
  exists w s' c', s = w +:+ s' /\ Matches r w c c' /\ k s' c' = Some x.
Proof.
  revert s c k. induction r as [l|cl|cl g|cl g|r1 IH1 r2 IH2|r1 IH1 r2 IH2|i r1 IH1];
    intros s c k Hbt; cbn [bt] in Hbt.
  - destruct (stripPrefix l s) as [s'|] eqn:Hl; [|discriminate].
    exists l, s', c. split; [by apply stripPrefix_app|done].
  - destruct s as [|a t]; [discriminate|].
    destruct (classMatch cl a) eqn:Ha; [|discriminate].
    exists (String a ""), t, c. split; [done|]. split; [|done].
    split; [by exists a|done].
  - apply star_sound in Hbt as (w & s' & -> & Hw & Hk).
    exists w, s', c. done.
  - destruct s as [|a t]; [discriminate|].
    destruct (classMatch cl a) eqn:Ha; [|discriminate].
    apply star_sound in Hbt as (w & s' & -> & Hw & Hk).
    exists (String a w), s', c. split; [done|]. split; [|done].
    split; [by exists a, w|done].
  - destruct (bt r1 s c k) eqn:H1.
    + injection Hbt as ->. apply IH1 in H1 as (w & s' & c' & -> & Hw & Hk).
      exists w, s', c'. split; [done|]. split; [by left|done].
    + apply IH2 in Hbt as (w & s' & c' & -> & Hw & Hk).
      exists w, s', c'. split; [done|]. split; [by right|done].
  - apply IH1 in Hbt as (w1 & s1 & c1 & -> & Hw1 & Hk1).
    apply IH2 in Hk1 as (w2 & s2 & c2 & -> & Hw2 & Hk2).
    exists (w1 +:+ w2), s2, c2. split; [by rewrite app_assoc_S|].
    split; [|done]. by exists w1, w2, c1.
  - apply IH1 in Hbt as (w & s' & c' & -> & Hw & Hk).
    rewrite consumed_app in Hk.
    exists w, s', ((i, w) :: c'). split; [done|]. split; [|done]. by exists c'.
Qed.

Lemma matchHere_captures (r : re) (n : nat) (s : string) (m : list string) :
  matchHere r n s = Some m ->
  exists w post c,
    s = w +:+ post /\ Matches r w [] c /\ m = w :: map (group c) (seq 1 n).
Proof.
  unfold matchHere. intros Hm.
  apply bt_captures in Hm as (w & s' & c & -> & Hw & Hk).
  injection Hk as <-. exists w, s', c. by rewrite consumed_app.
Qed.

(** The leftmost match: where it is, and its submatches. *)
Lemma findFrom_captures (r : re) (n : nat) (s : string) (m : list string) :
  findFrom r n s = Some m ->
  exists pre w post c,
    s = pre +:+ w +:+ post /\ Matches r w [] c
    /\ m = w :: map (group c) (seq 1 n).
Proof.
  induction s as [|a t IH]; intros Hfind; cbn [findFrom] in Hfind.
  - destruct (matchHere r n "") eqn:Hm; [|discriminate].
    injection Hfind as <-.
    apply matchHere_captures in Hm as (w & post & c & Hs & Hw & Hm).
    by exists "", w, post, c.
  - destruct (matchHere r n (String a t)) eqn:Hm.
    + injection Hfind as <-.
      apply matchHere_captures in Hm as (w & post & c & Hs & Hw & Hm).
      by exists "", w, post, c.
    + destruct (IH Hfind) as (pre & w & post & c & -> & Hw & Hm').
      exists (String a pre), w, post, c. done.
Qed.



End CaptureFacts.

Lemma extract_of_match (desc w g1 g2 g3 g4 : string) :
  findFrom descRegex 4 desc = Some [w; g1; g2; g3; g4] ->
  extractOpFromDescription desc
  = Ok {| fsOpType := g3; inode := g4; clientID := g1 |}.
Proof.
  intros Hfind. unfold extractOpFromDescription, getGroups, FindStringSubmatch.
  change (length descSubexpNames - 1)%nat with 4%nat. rewrite Hfind.
  vm_compute. reflexivity.
Qed.

Lemma extract_of_no_match (desc : string) :
  findFrom descRegex 4 desc = None ->
  extractOpFromDescription desc = Err (Errorf errInvalidDescriptionFormat desc).
Proof.
  intros Hfind. unfold extractOpFromDescription, FindStringSubmatch.
  change (length descSubexpNames - 1)%nat with 4%nat. by rewrite Hfind.
Qed.

(** X13: the extraction fails exactly when the pattern has no match in the
    description: with a match, the three named groups are always there, and
    the result holds the submatch of the group fsoptype, of the group inode
    and of the group clientid. *)
Theorem extract_follows_match (desc : string) :
  extractOpFromDescription desc
  = match FindStringSubmatch descRegex 4 desc with
    | [] => Err (Errorf errInvalidDescriptionFormat desc)
    | matches =>
        Ok {| fsOpType := default "" (matches !! 3%nat);
              inode := default "" (matches !! 4%nat);
              clientID := default "" (matches !! 1%nat) |}
    end.
Proof.
  unfold FindStringSubmatch.
  destruct (findFrom descRegex 4 desc) as [m|] eqn:Hfind;
    [|by apply extract_of_no_match].
  pose proof Hfind as Hm.
  apply findFrom_captures in Hm as (pre & w & post & c & _ & _ & ->).
  cbn [map seq] in *. by rewrite (extract_of_match _ _ _ _ _ _ Hfind).
Qed.




(** ** Decoding into a receiver that is not fresh *)

Section OverlayFacts.
Import Gob.




End OverlayFacts.



(** ** A daemon that does not answer *)

(** X16: when the status or the blocked operations of a daemon cannot be
    had (the command fails or its answer does not decode), the pass ends
    there: it logs this one error, and the messages that follow in the
    detail are not looked at, so that their daemons get no sample. *)
Theorem failed_daemon_ends_pass rangeOrder (m : MDSCollector)
        (message mdsName : string) (rest : list string) :
  mdsNameOf message = Some mdsName ->
  (forall mss mso, ~ (runMDSStatusFn m mdsName = Decoded mss
                      /\ runBlockedOpsCheckFn m mdsName = Decoded mso)) ->
  ch (detailLoop rangeOrder (message :: rest) m) = ch m
  /\ exists text e,
       logger (detailLoop rangeOrder (message :: rest) m)
       = logger m ++ [LogError text e [("mds", mdsName)]].
Proof.
  intros Hname Hfail. cbn [detailLoop]. rewrite Hname. unfold daemonSlowOps.
  destruct (runMDSStatusFn m mdsName) as [e|e|mss];
    [split; [reflexivity|eexists _, _; reflexivity]..|].
  destruct (runBlockedOpsCheckFn m mdsName) as [e|e|mso];
    [split; [reflexivity|eexists _, _; reflexivity]..|].
  by destruct (Hfail mss mso).
Qed.

Lemma failed_daemon_ends_pass_witness :
  let m := NewMDSCollector [] false (Failed (ErrNew "unused")) (Failed (ErrNew "unused"))
             (fun name => if String.eqb name "mds.a" then Failed (ErrNew "timeout")
                          else Decoded (mkStatus "up:active" "cephfs"))
             (fun _ => Decoded (mkSlowOp [mkOp "" "dispatched" "internal_op"])) in
  let details := ["mds.a(mds.0): 1 slow requests are blocked > 30 secs";
                  "mds.b(mds.1): 1 slow requests are blocked > 30 secs"] in
  ch (detailLoop map_to_list details m) = ch m
  /\ exists text e,
       logger (detailLoop map_to_list details m)
       = logger m ++ [LogError text e [("mds", "mds.a")]].
Proof.
  intros m details.
  apply (failed_daemon_ends_pass map_to_list m
           "mds.a(mds.0): 1 slow requests are blocked > 30 secs" "mds.a"
           ["mds.b(mds.1): 1 slow requests are blocked > 30 secs"]).
  - reflexivity.
  - intros mss mso [H _]. discriminate H.
Defined.

(** ** Rounds between two scrapes *)

Section RoundFacts.
Variable rangeOrder : gmap string Z -> list (string * Z).

Lemma daemonSlowOps_samples (mdsName : string) (m : MDSCollector) :
  let r := daemonSlowOps rangeOrder mdsName m in
  let o := daemonSamples rangeOrder (runMDSStatusFn m) (runBlockedOpsCheckFn m) mdsName in
  ch r.1 = foldl trySend (ch m) o.1 /\ r.2 = o.2
  /\ runMDSStatusFn r.1 = runMDSStatusFn m
  /\ runBlockedOpsCheckFn r.1 = runBlockedOpsCheckFn m.
Proof.
  unfold daemonSlowOps, daemonSamples.
  destruct (runMDSStatusFn m mdsName) as [e|e|mss]; [done..|].
  destruct (runBlockedOpsCheckFn m mdsName) as [e|e|mso]; [done..|].
  pose proof (countOps_log mss mdsName (Ops mso) ∅ (logger m) []) as Hmap.
  fold (countOps mss mdsName (Ops mso) (logger m)) in Hmap.
  fold (countOps mss mdsName (Ops mso) []) in Hmap.
  destruct (countOps mss mdsName (Ops mso) (logger m)) as [mm lg].
  cbn in *. by rewrite Hmap.
Qed.

Lemma detailLoop_samples (details : list string) (m : MDSCollector) :
  ch (detailLoop rangeOrder details m)
  = foldl trySend (ch m)
      (detailSamples rangeOrder (runMDSStatusFn m) (runBlockedOpsCheckFn m) details).
Proof.
  revert m. induction details as [|message rest IH]; intros m; [done|].
  cbn [detailLoop detailSamples]. destruct (mdsNameOf message) as [mdsName|].
  - destruct (daemonSlowOps_samples mdsName m) as (Hch & Hcont & Hst & Ho).
    destruct (daemonSlowOps rangeOrder mdsName m) as [m1 c1].
    destruct (daemonSamples rangeOrder (runMDSStatusFn m) (runBlockedOpsCheckFn m)
                mdsName) as [o c2].
    cbn in Hch, Hcont, Hst, Ho. subst c2. destruct c1; [|done].
    by rewrite IH, Hst, Ho, Hch, foldl_app.
  - by rewrite IH.
Qed.

Lemma collectMDSSlowOps_samples (m : MDSCollector) :
  ch (collectMDSSlowOps rangeOrder m)
  = foldl trySend (ch m)
      match runCephHealthDetailFn m with
      | Decoded hc =>
          match Checks hc !! "MDS_SLOW_REQUEST" with
          | Some check =>
              detailSamples rangeOrder (runMDSStatusFn m) (runBlockedOpsCheckFn m)
                (Detail check)
          | None => []
          end
      | _ => []
      end.
Proof.
  unfold collectMDSSlowOps.
  destruct (runCephHealthDetailFn m) as [e|e|hc]; [done..|].
  destruct (Checks hc !! "MDS_SLOW_REQUEST") as [check|]; [|done].
  apply detailLoop_samples.
Qed.

Lemma collect_samples (m : MDSCollector) :
  ch (collect rangeOrder m).1 = foldl trySend (ch m) (roundSamples rangeOrder m).
Proof.
  unfold collect, roundSamples.
  destruct (runMDSStatFn m) as [e|e|ms]; [done..|].
  cbn [fst]. rewrite collect_state_loop, collectMDSSlowOps_samples.
  cbn [setCh ch runCephHealthDetailFn runMDSStatusFn runBlockedOpsCheckFn].
  by rewrite foldl_app.
Qed.

Lemma loggedCollect_samples (m : MDSCollector) :
  ch (loggedCollect rangeOrder m) = foldl trySend (ch m) (roundSamples rangeOrder m).
Proof.
  unfold loggedCollect. set (m0 := logEntry m _).
  pose proof (collect_samples m0) as Hch.
  change (roundSamples rangeOrder m0) with (roundSamples rangeOrder m) in Hch.
  change (ch m0) with (ch m) in Hch.
  destruct (collect rangeOrder m0) as [m1 [e|]]; exact Hch.
Qed.

Lemma roundSamples_loggedCollect (m : MDSCollector) :
  roundSamples rangeOrder (loggedCollect rangeOrder m) = roundSamples rangeOrder m.
Proof.
  destruct (loggedCollect_offers rangeOrder m)
    as [o (_ & _ & Hs & Hh & Hst & Ho & _)].
  unfold roundSamples. by rewrite Hs, Hh, Hst, Ho.
Qed.

Lemma backgroundCollect_samples (n : nat) (m : MDSCollector) :
  ch (backgroundCollect rangeOrder n m)
  = foldl trySend (ch m) (concat (replicate n (roundSamples rangeOrder m))).
Proof.
  revert m. induction n as [|n IH]; intros m; [done|].
  cbn [backgroundCollect replicate concat].
  by rewrite IH, roundSamples_loggedCollect, loggedCollect_samples, foldl_app.
Qed.

End RoundFacts.

(** ** Orders of iteration *)

Section OrderFacts.

Lemma sameStat_refl (a : reply mdsStat) : sameStat a a.
Proof.
  destruct a as [e|e|ms]; cbn; [done..|].
  induction (Filesystems ms); constructor; done.
Qed.

Lemma withStat_same (m : MDSCollector) : withStat m (runMDSStatFn m) = m.
Proof. by destruct m. Qed.

Lemma mdsStateMetrics_sameStat (ms ms' : mdsStat) :
  sameStat (Decoded ms) (Decoded ms') ->
  mdsStateMetrics ms ≡ₚ mdsStateMetrics ms'.
Proof.
  unfold mdsStateMetrics. cbn. generalize (Filesystems ms) (Filesystems ms').
  induction 1 as [|fs fs' l l' [Hname Hinfo] _ IH]; [done|].
  cbn [flat_map]. apply Permutation_app; [|exact IH].
  rewrite Hinfo. erewrite map_ext; [reflexivity|]. intros info.
  unfold mdsStateMetric. by rewrite Hname.
Qed.

Lemma rangeMetrics_visits ro ro' (mm : gmap string Z) :
  visits ro -> visits ro' -> rangeMetrics ro mm ≡ₚ rangeMetrics ro' mm.
Proof.
  intros H H'. unfold rangeMetrics. apply Permutation_map. by rewrite (H mm), (H' mm).
Qed.

Lemma detailSamples_visits ro ro' (status : string -> reply mdsStatus)
      (blockedOps : string -> reply mdsSlowOp) (details : list string) :
  visits ro -> visits ro' ->
  detailSamples ro status blockedOps details
  ≡ₚ detailSamples ro' status blockedOps details.
Proof.
  intros H H'. induction details as [|message rest IH]; [done|].
  cbn [detailSamples]. destruct (mdsNameOf message) as [mdsName|]; [|exact IH].
  unfold daemonSamples.
  destruct (status mdsName) as [e|e|mss]; [done..|].
  destruct (blockedOps mdsName) as [e|e|mso]; [done..|].
  apply Permutation_app; [by apply rangeMetrics_visits|exact IH].
Qed.

(** The samples of a round are the same, up to their order, whatever
    order the ranges of the round visit. *)
Lemma roundSamples_askedAgain ro ro' (m m' : MDSCollector) :
  visits ro -> visits ro' -> askedAgain m m' ->
  roundSamples ro' m' ≡ₚ roundSamples ro m.
Proof.
  intros H H' (_ & _ & _ & Hs & Hh & Hst & Ho). unfold roundSamples.
  rewrite Hh, Hst, Ho.
  destruct (runMDSStatFn m) as [e|e|ms], (runMDSStatFn m') as [e'|e'|ms'];
    try done.
  apply Permutation_app; [symmetry; by apply mdsStateMetrics_sameStat|].
  destruct (runCephHealthDetailFn m) as [e|e|hc]; [done..|].
  destruct (Checks hc !! "MDS_SLOW_REQUEST") as [check|]; [|done].
  by apply detailSamples_visits.
Qed.

Lemma concat_replicate_perm {A : Type} (ls : list (list A)) (l : list A) :
  Forall (fun l' => l' ≡ₚ l) ls -> concat ls ≡ₚ concat (replicate (length ls) l).
Proof.
  induction 1 as [|l' ls Hl _ IH]; [done|]. cbn. by rewrite Hl, IH.
Qed.

Lemma concat_replicate_length {A : Type} (n : nat) (l : list A) :
  length (concat (replicate n l)) = (n * length l)%nat.
Proof. induction n as [|n IH]; [done|]. cbn. rewrite length_app, IH. done. Qed.

Lemma Collect_foreground ro (m : MDSCollector) :
  background m = false ->
  (Collect ro m).2
  = buf (ch m) ++ take (capacity (ch m) - length (buf (ch m))) (roundSamples ro m).
Proof.
  intros Hbg. rewrite Collect_drained, Hbg. cbn [snd].
  by rewrite loggedCollect_samples, emit_take.
Qed.

(** The rounds of the polling loop, each with its answer of [mds stat]
    and the order of its ranges. *)
Lemma pollRounds_samples
      (rounds : list ((gmap string Z -> list (string * Z)) * reply mdsStat))
      (m : MDSCollector) :
  ch (pollRounds rounds m)
  = foldl trySend (ch m)
      (concat (map (fun r => roundSamples r.1 (withStat m r.2)) rounds))
  /\ runCephHealthDetailFn (pollRounds rounds m) = runCephHealthDetailFn m
  /\ runMDSStatusFn (pollRounds rounds m) = runMDSStatusFn m
  /\ runBlockedOpsCheckFn (pollRounds rounds m) = runBlockedOpsCheckFn m.
Proof.
  induction rounds as [|r rounds IH] using rev_ind; [done|].
  unfold pollRounds in *. rewrite foldl_app. cbn [foldl].
  set (mk := foldl _ m rounds) in *. destruct IH as (Hch & Hh & Hst & Ho).
  destruct (loggedCollect_offers r.1 (withStat mk r.2))
    as [o (_ & _ & _ & Hh' & Hst' & Ho' & _)].
  rewrite loggedCollect_samples. cbn [withStat ch] .
  rewrite map_app, concat_app, foldl_app, <- Hch. cbn [map concat].
  rewrite app_nil_r.
  split; [|cbn in *; repeat split; congruence].
  f_equal. unfold roundSamples. cbn. by rewrite Hh, Hst, Ho.
Qed.

Lemma backgroundCollect_pollRounds ro (n : nat) (m : MDSCollector) :
  backgroundCollect ro n m = pollRounds (replicate n (ro, runMDSStatFn m)) m.
Proof.
  revert m. induction n as [|n IH]; intros m; [done|].
  cbn [backgroundCollect replicate]. unfold pollRounds in *. cbn [foldl fst snd].
  rewrite withStat_same, IH.
  destruct (loggedCollect_offers ro m) as [o (_ & _ & Hs & _)]. by rewrite Hs.
Qed.

End OrderFacts.

(** X5: a collector in foreground mode keeps nothing from one scrape to
    the next but its log.  When the cluster gives the same answers ([mds
    stat] up to the order in which the daemons of a filesystem are visited)
    and the samples of a round fit into the channel, a scrape of a
    collector whose buffer is empty sends the samples of the round, and any
    other such scrape sends the same samples up to their order, whatever
    order its ranges visit; after it the collector is as before, up to its
    log. *)
Theorem foreground_scrapes_agree ro ro' (m m' : MDSCollector) :
  visits ro -> visits ro' ->
  background m = false ->
  buf (ch m) = [] ->
  askedAgain m m' ->
  (length (roundSamples ro m) <= capacity (ch m))%nat ->
  (Collect ro m).2 = roundSamples ro m
  /\ (Collect ro' m').2 ≡ₚ (Collect ro m).2
  /\ askedAgain m (Collect ro' m').1.
Proof.
  intros H H' Hbg Hbuf Hagain Hfit.
  pose proof (roundSamples_askedAgain ro ro' m m' H H' Hagain) as Hperm.
  pose proof Hagain as (Hb & Hp & Hc & Hs & Hh & Hst & Ho).
  assert (background m' = false) as Hbg' by congruence.
  rewrite !Collect_foreground by done. rewrite Hc, Hbuf. cbn [app length].
  rewrite Nat.sub_0_r, !take_ge by (rewrite ?Hperm; lia).
  split; [done|]. split; [done|].
  rewrite Collect_drained, Hbg'. cbn [fst].
  destruct (loggedCollect_offers ro' m')
    as [o (Hb1 & Hp1 & Hs1 & Hh1 & Hst1 & Ho1 & Hc1 & _)].
  unfold askedAgain. cbn. rewrite Hc1, emit_take. cbn [capacity].
  rewrite Hs1, Hc. repeat split; try congruence.
  destruct (ch m). cbn in Hbuf. by subst.
Qed.

Lemma foreground_scrapes_agree_witness :
  let mss := mkStatus "up:active" "cephfs" in
  let request := mkOp exampleDescription "failed to xlock, waiting" "client_request" in
  let internal := mkOp "internal op exportdir:mds.0:1" "dispatched" "internal_op" in
  let health := mkHealth {[ "MDS_SLOW_REQUEST" :=
                  mkCheck ["mds.a(mds.0): 2 slow requests are blocked > 30 secs"] ]} in
  let a := mkInfo "a" 0 "up:active" in
  let b := mkInfo "b" (-1) "up:standby" in
  let m := NewMDSCollector [] false
             (Decoded (mkStat [mkFilesystem "cephfs" [a; b]]))
             (Decoded health) (fun _ => Decoded mss)
             (fun _ => Decoded (mkSlowOp [request; internal; request])) in
  let m' := withStat (Collect map_to_list m).1
              (Decoded (mkStat [mkFilesystem "cephfs" [b; a]])) in
  let ro' := fun mm : gmap string Z => reverse (map_to_list mm) in
  (Collect map_to_list m).2 = roundSamples map_to_list m
  /\ (Collect ro' m').2 ≡ₚ (Collect map_to_list m).2
  /\ askedAgain m (Collect ro' m').1.
Proof.
  intros mss request internal health a b m m' ro'.
  apply (foreground_scrapes_agree map_to_list ro' m m').
  - intros mm. reflexivity.
  - intros mm. apply reverse_Permutation.
  - reflexivity.
  - reflexivity.
  - unfold askedAgain. repeat split; try reflexivity.
    cbn. constructor; [|constructor]. split; [reflexivity|]. apply Permutation_swap.
  - vm_compute. lia.
Defined.

(** X17: the samples a round of collection offers depend on the answers
    of the cluster only, not on the channel or the log, and the polling
    loop offers them anew in every round.  With the same answers, after
    rounds that ran one after the other without a scrape in between, the
    buffer holds, behind what it held, the samples of the rounds in the
    order of the rounds, cut where the buffer is full; each round has
    offered the same samples, in the order its ranges visited.  When there
    is room for all of them the buffer holds every sample of a round as
    many times as there were rounds. *)
Theorem rounds_pile_up
        (rounds : list ((gmap string Z -> list (string * Z)) * reply mdsStat))
        (m : MDSCollector) :
  Forall (fun r => visits r.1 /\ sameStat (runMDSStatFn m) r.2) rounds ->
  exists offered : list (list Metric),
    length offered = length rounds
    /\ Forall (fun o => o ≡ₚ roundSamples map_to_list m) offered
    /\ buf (ch (pollRounds rounds m))
       = buf (ch m)
         ++ take (capacity (ch m) - length (buf (ch m))) (concat offered)
    /\ ((length (buf (ch m))
         + length rounds * length (roundSamples map_to_list m)
         <= capacity (ch m))%nat ->
        buf (ch (pollRounds rounds m))
        ≡ₚ buf (ch m)
           ++ concat (replicate (length rounds) (roundSamples map_to_list m))).
Proof.
  intros Hrounds.
  exists (map (fun r => roundSamples r.1 (withStat m r.2)) rounds).
  assert (Forall (fun o => o ≡ₚ roundSamples map_to_list m)
            (map (fun r => roundSamples r.1 (withStat m r.2)) rounds)) as Hall.
  { apply Forall_fmap. eapply Forall_impl; [exact Hrounds|].
    intros [ro stat] [Hro Hstat]. cbn in *.
    apply roundSamples_askedAgain; [by intros mm|done|].
    unfold askedAgain. by repeat split. }
  destruct (pollRounds_samples rounds m) as (Hch & _).
  split; [by rewrite length_map|]. split; [exact Hall|].
  rewrite Hch, emit_take. cbn [buf]. split; [done|].
  intros Hfit. pose proof (concat_replicate_perm _ _ Hall) as Hperm.
  rewrite length_map in Hperm.
  rewrite take_ge; [by rewrite Hperm|].
  rewrite Hperm, concat_replicate_length. lia.
Qed.

Lemma rounds_pile_up_witness :
  let a := mkInfo "a" 0 "up:active" in
  let b := mkInfo "b" (-1) "up:standby" in
  let stat := Decoded (mkStat [mkFilesystem "cephfs" [a; b]]) in
  let stat' := Decoded (mkStat [mkFilesystem "cephfs" [b; a]]) in
  let m := NewMDSCollector [] true stat (Failed (ErrNew "timeout"))
             (fun _ => Failed (ErrNew "unused")) (fun _ => Failed (ErrNew "unused")) in
  let rounds := [(map_to_list, stat); (map_to_list, stat')] in
  buf (ch (pollRounds rounds m))
  = [mdsStateMetric (mkFilesystem "cephfs" []) a;
     mdsStateMetric (mkFilesystem "cephfs" []) b;
     mdsStateMetric (mkFilesystem "cephfs" []) b;
     mdsStateMetric (mkFilesystem "cephfs" []) a]
  /\ exists offered : list (list Metric),
    length offered = length rounds
    /\ Forall (fun o => o ≡ₚ roundSamples map_to_list m) offered
    /\ buf (ch (pollRounds rounds m))
       = buf (ch m)
         ++ take (capacity (ch m) - length (buf (ch m))) (concat offered)
    /\ ((length (buf (ch m))
         + length rounds * length (roundSamples map_to_list m)
         <= capacity (ch m))%nat ->
        buf (ch (pollRounds rounds m))
        ≡ₚ buf (ch m)
           ++ concat (replicate (length rounds) (roundSamples map_to_list m))).
Proof.
  intros a b stat stat' m rounds. split; [by vm_compute|].
  apply (rounds_pile_up rounds m).
  repeat constructor; intros mm; reflexivity.
Defined.

(** ** A daemon named by two messages *)

(** X12: the map of counters is made anew for every accepted message:
    when two messages of the detail name the same daemon, the pass offers
    the samples of this daemon twice, once for each message, in the orders
    the two calls of [Range] visit the map; with room for both the channel
    holds every sample of the daemon twice.  The same holds when the second
    call visits the map in another order than the first. *)
Theorem daemon_named_twice_sampled_twice ro (m : MDSCollector)
        (message1 message2 mdsName : string) (mss : mdsStatus) (mso : mdsSlowOp) :
  visits ro ->
  mdsNameOf message1 = Some mdsName ->
  mdsNameOf message2 = Some mdsName ->
  runMDSStatusFn m mdsName = Decoded mss ->
  runBlockedOpsCheckFn m mdsName = Decoded mso ->
  let samples := rangeMetrics map_to_list (countOps mss mdsName (Ops mso) []).1 in
  let free := (capacity (ch m) - length (buf (ch m)))%nat in
  (exists first second,
      first ≡ₚ samples /\ second ≡ₚ samples
      /\ buf (ch (detailLoop ro [message1; message2] m))
         = buf (ch m) ++ take free (first ++ second))
  /\ ((2 * length samples <= free)%nat ->
      buf (ch (detailLoop ro [message1; message2] m))
      ≡ₚ buf (ch m) ++ samples ++ samples)
  /\ (forall ro', visits ro' ->
        exists second,
          second ≡ₚ samples
          /\ buf (ch (daemonSlowOps ro' mdsName (daemonSlowOps ro mdsName m).1).1)
             = buf (ch m)
               ++ take free
                    (rangeMetrics ro (countOps mss mdsName (Ops mso) []).1 ++ second)).
Proof.
  intros Hro H1 H2 Hstatus Hops samples free.
  assert (forall lg, (countOps mss mdsName (Ops mso) lg).1
                     = (countOps mss mdsName (Ops mso) []).1) as Hmap
      by (intros lg; apply countOps_log).
  assert (forall ro', visits ro' ->
            rangeMetrics ro' (countOps mss mdsName (Ops mso) []).1 ≡ₚ samples) as Hsame.
  { intros ro' Hro'. apply rangeMetrics_visits; [done|by intros mm]. }
  assert (forall ro',
            buf (ch (daemonSlowOps ro' mdsName (daemonSlowOps ro mdsName m).1).1)
            = buf (ch m)
              ++ take free (rangeMetrics ro (countOps mss mdsName (Ops mso) []).1
                            ++ rangeMetrics ro' (countOps mss mdsName (Ops mso) []).1))
    as Htwice.
  { intros ro'.
    rewrite (daemonSlowOps_decoded_state ro _ _ mss mso Hstatus Hops).
    rewrite (daemonSlowOps_decoded_state ro' _ _ mss mso) by exact Hstatus || exact Hops.
    cbn [fst ch logger]. unfold emitCounters.
    rewrite (Hmap (countOps mss mdsName (Ops mso) (logger m)).2), (Hmap (logger m)).
    by rewrite <- foldl_app, emit_take. }
  assert (buf (ch (detailLoop ro [message1; message2] m))
          = buf (ch (daemonSlowOps ro mdsName (daemonSlowOps ro mdsName m).1).1))
    as Hloop.
  { cbn [detailLoop]. rewrite H1, H2.
    rewrite (daemonSlowOps_decoded_state ro _ _ mss mso Hstatus Hops).
    cbn [fst snd].
    rewrite (daemonSlowOps_decoded_state ro _ _ mss mso)
      by exact Hstatus || exact Hops.
    reflexivity. }
  split; [|split].
  - eexists _, _. split; [|split]; [apply (Hsame ro Hro)..|].
    by rewrite Hloop, Htwice.
  - intros Hroom. rewrite Hloop, Htwice.
    pose proof (Hsame ro Hro) as Hp.
    rewrite take_ge; [by rewrite Hp|].
    rewrite length_app, Hp. lia.
  - intros ro' Hro'. eexists. split; [apply (Hsame ro' Hro')|]. apply Htwice.
Qed.

Lemma daemon_named_twice_sampled_twice_witness :
  let mss := mkStatus "up:active" "cephfs" in
  let request := mkOp exampleDescription "failed to xlock, waiting" "client_request" in
  let internal := mkOp "internal op exportdir:mds.0:1" "dispatched" "internal_op" in
  let mso := mkSlowOp [request; internal; request] in
  let m := NewMDSCollector [] false (Failed (ErrNew "unused")) (Failed (ErrNew "unused"))
             (fun _ => Decoded mss) (fun _ => Decoded mso) in
  let ro := fun mm : gmap string Z => reverse (map_to_list mm) in
  let message1 := "mds.a(mds.0): 2 slow requests are blocked > 30 secs" in
  let message2 := "mds.a(mds.1): 2 slow requests are blocked > 30 secs" in
  let samples := rangeMetrics map_to_list (countOps mss "mds.a" (Ops mso) []).1 in
  let free := (capacity (ch m) - length (buf (ch m)))%nat in
  (exists first second,
      first ≡ₚ samples /\ second ≡ₚ samples
      /\ buf (ch (detailLoop ro [message1; message2] m))
         = buf (ch m) ++ take free (first ++ second))
  /\ ((2 * length samples <= free)%nat ->
      buf (ch (detailLoop ro [message1; message2] m))
      ≡ₚ buf (ch m) ++ samples ++ samples)
  /\ (forall ro', visits ro' ->
        exists second,
          second ≡ₚ samples
          /\ buf (ch (daemonSlowOps ro' "mds.a" (daemonSlowOps ro "mds.a" m).1).1)
             = buf (ch m)
               ++ take free
                    (rangeMetrics ro (countOps mss "mds.a" (Ops mso) []).1 ++ second)).
Proof.
  intros mss request internal mso m ro message1 message2.
  apply (daemon_named_twice_sampled_twice ro m message1 message2 "mds.a" mss mso);
    try reflexivity.
  intros mm. apply reverse_Permutation.
Defined.
